(** * CodeActionAdapter (lib/adapters/code-action-adapter.js)

    A shallow embedding of the adapter that turns the LSP
    [textDocument/codeAction] request into Atom IDE code actions, together
    with the properties its specification states.

    The adapter is JavaScript: its data are mutable objects reached through
    references, and its collaborators ([Convert], the language client
    connection, the linter adapter's diagnostic-code cache) are other
    modules.  The embedding therefore has

    - JavaScript values and a store of objects ([value], [object], [heap]);
    - a state-and-exception monad [M] over the store and a log of the calls
      that leave the adapter (cache lookups and RPC requests);
    - the collaborators as records of store transformers, about which the
      theorems assume only what they state. *)

From Stdlib Require Import ZArith.
From stdpp Require Import base option list gmap strings.

Local Open Scope string_scope.
Local Open Scope list_scope.

(** ** JavaScript values and the object store *)

Definition loc := positive.

(** The three function expressions of the source ([apply], [getTitle],
    [dispose]); a function value is one of them together with the [command]
    variable it closes over. *)
Inductive function_body := ApplyCode | GetTitleCode | DisposeCode.

(** Numbers are kept as integers plus [NaN]: the adapter never computes with
    them, only their truthiness can matter. *)
Inductive value :=
  | VUndefined
  | VNull
  | VBool (b : bool)
  | VNum (z : Z)
  | VNaN
  | VStr (s : string)
  | VRef (l : loc)
  | VClosure (body : function_body) (command : value).

#[global] Instance function_body_eq_dec : EqDecision function_body.
Proof. solve_decision. Defined.

#[global] Instance value_eq_dec : EqDecision value.
Proof. solve_decision. Defined.

(** An object has named properties; an array also has its elements. *)
Record object := Object {
  props : gmap string value;
  elems : option (list value)
}.

Abbreviation heap := (gmap loc object).

Definition object_literal (fields : list (string * value)) : object :=
  Object (list_to_map fields) None.

Definition array_literal (items : list value) : object :=
  Object ∅ (Some items).

(** ** Outcomes, the log of outgoing calls, and the monad *)

Inductive error :=
  | AssertionError (message : string)  (* thrown by [invariant] (Node's assert) *)
  | TypeError                          (* thrown by the language itself *)
  | Failure (reason : value).          (* raised by a collaborator *)

Inductive outcome (A : Type) :=
  | Return (a : A)
  | Throw (e : error).
Arguments Return {A} a.
Arguments Throw {A} e.

(** What leaves the adapter.  An RPC request is recorded with the store at the
    moment of the call, which fixes the content of the request sent. *)
Inductive event :=
  | GetDiagnosticCode (editor range text : value)
  | CodeAction (params : value) (sent : heap)
  | ExecuteCommand (params : value) (sent : heap).

Record state := State { store : heap; trace : list event }.

Definition M (A : Type) : Type := state → outcome A * state.

#[global] Instance M_ret : MRet M := λ A a s, (Return a, s).

#[global] Instance M_bind : MBind M := λ A B f m s,
  match m s with
  | (Return a, s') => f a s'
  | (Throw e, s') => (Throw e, s')
  end.

Definition throw {A} (e : error) : M A := λ s, (Throw e, s).

Definition emit (e : state → event) : M unit :=
  λ s, (Return (), State (store s) (trace s ++ [e s])).

(** A collaborator outside this module: it may read and write the store and
    may fail, but has no access to the log. *)
Definition external (A : Type) : Type := heap → outcome A * heap.

Definition call_external {A} (f : external A) : M A :=
  λ s, let '(r, h) := f (store s) in (r, State h (trace s)).

(** ** Language primitives *)

(** [v.k].  Reading a property of [undefined] or [null] throws.  Of the
    properties the adapter reads, a primitive or a function has none, and
    reading [arguments] (or [caller]) of a function of strict code throws. *)
Definition get_prop (h : heap) (v : value) (k : string) : outcome value :=
  match v with
  | VUndefined | VNull => Throw TypeError
  | VRef l =>
      match h !! l with
      | Some o => Return (default VUndefined (props o !! k))
      | None => Throw TypeError
      end
  | VClosure _ _ =>
      if String.eqb k "arguments" || String.eqb k "caller"
      then Throw TypeError else Return VUndefined
  | _ => Return VUndefined
  end.

Definition read_prop (v : value) (k : string) : M value :=
  λ s, (get_prop (store s) v k, s).

Definition with_prop (k : string) (x : value) (o : object) : object :=
  Object (<[k := x]> (props o)) (elems o).

(** [v.k = x] in strict code (class bodies are strict): assigning to a
    property of a primitive throws.  A function takes the assignment; it has
    no place of its own in the store, so the property is not kept (the
    adapter never reads it back). *)
Definition write_prop (v : value) (k : string) (x : value) : M unit :=
  λ s, match v with
       | VRef l =>
           match store s !! l with
           | Some o => (Return (), State (<[l := with_prop k x o]> (store s)) (trace s))
           | None => (Throw TypeError, s)
           end
       | VClosure _ _ => (Return (), s)
       | _ => (Throw TypeError, s)
       end.

(** A newly created object gets a reference that the store does not use. *)
Definition alloc (o : object) : M value :=
  λ s, let l := fresh (dom (store s)) in
       (Return (VRef l), State (<[l := o]> (store s)) (trace s)).

(** [x == null] *)
Definition is_nullish (v : value) : bool :=
  match v with VUndefined | VNull => true | _ => false end.

(** ToBoolean *)
Definition to_boolean (v : value) : bool :=
  match v with
  | VUndefined | VNull | VNaN => false
  | VBool b => b
  | VNum z => negb (z =? 0)%Z
  | VStr s => negb (String.eqb s "")
  | VRef _ | VClosure _ _ => true
  end.

(** [a === b].  Function objects have no identity of their own here; the
    adapter never compares them. *)
Definition strict_equal (a b : value) : bool :=
  match a, b with
  | VNaN, _ | _, VNaN => false
  | _, _ => bool_decide (a = b)
  end.

(** [import invariant from 'assert'] *)
Definition invariant (v : value) (message : string) : M unit :=
  if to_boolean v then mret () else throw (AssertionError message).

(** The elements of the array stored at [a], if there is one. *)
Definition elements (h : heap) (a : loc) : option (list value) :=
  o ← h !! a; elems o.

(** [Array.prototype.map]: the length is read once, then each index is read
    from the array as it is when its turn comes and handed to the callback.
    An index that has disappeared by then is skipped and left as a hole in the
    result, which reads back as [undefined]. *)
Fixpoint map_from (callback : value → M value) (array : loc) (k n : nat)
  : M (list value) :=
  match n with
  | O => mret []
  | S n' =>
      λ s, match xs ← elements (store s) array; xs !! k with
           | Some x =>
               (y ← callback x;
                ys ← map_from callback array (S k) n';
                mret (y :: ys)) s
           | None =>
               (ys ← map_from callback array (S k) n';
                mret (VUndefined :: ys)) s
           end
  end.

Definition array_map (array : value) (callback : value → M value) : M value :=
  λ s, match array with
       | VRef a =>
           match elements (store s) a with
           | Some xs => (ys ← map_from callback a 0 (length xs);
                         alloc (array_literal ys)) s
           | None => (Throw TypeError, s)
           end
       | _ => (Throw TypeError, s)
       end.

(** ** The collaborators *)

(** [../convert] *)
Record Converter := {
  editorToTextDocumentIdentifier : value → external value;
  atomRangeToLSRange : value → external value;
  atomIdeDiagnosticToLSDiagnostic : value → external value
}.

(** [../languageclient]; a method returns when its promise settles, with the
    store as it is then. *)
Record LanguageClientConnection := {
  codeAction : value → external value;
  executeCommand : value → external value
}.

(** [./linter-push-v2-adapter] *)
Record LinterPushV2Adapter := {
  getDiagnosticCode : value → value → value → external value
}.

(** ** The adapter *)

Section CodeActionAdapter.

Context (Convert : Converter).
Context (connection : LanguageClientConnection).

(** [static canAdapt(serverCapabilities)] *)
Definition canAdapt (serverCapabilities : value) : M bool :=
  p ← read_prop serverCapabilities "codeActionProvider";
  mret (strict_equal p (VBool true)).

(** The callback of [diagnostics.map]: convert the diagnostic and retrieve
    the stored diagnostic code if it exists. *)
Definition diagnostic_callback (linterAdapter : LinterPushV2Adapter)
    (editor diagnostic : value) : M value :=
  converted ← call_external (atomIdeDiagnosticToLSDiagnostic Convert diagnostic);
  r ← read_prop diagnostic "range";
  both ← (if is_nullish r then mret false
          else t ← read_prop diagnostic "text"; mret (negb (is_nullish t)));
  if both : bool then
    r ← read_prop diagnostic "range";
    t ← read_prop diagnostic "text";
    emit (λ _, GetDiagnosticCode editor r t);;
    code ← call_external (getDiagnosticCode linterAdapter editor r t);
    (if is_nullish code then mret () else write_prop converted "code" code);;
    mret converted
  else mret converted.

(** [async apply()] of a code action made from [command] *)
Definition apply (command : value) : M value :=
  name ← read_prop command "command";
  args ← read_prop command "arguments";
  params ← alloc (object_literal [("command", name); ("arguments", args)]);
  emit (λ s, ExecuteCommand params (store s));;
  _ ← call_external (executeCommand connection params);
  mret VUndefined.

(** [getTitle()]: [Promise.resolve(command.title)] *)
Definition getTitle (command : value) : M value :=
  read_prop command "title".

(** [dispose() {}] *)
Definition dispose : M value := mret VUndefined.

(** The callback of [commands.map]: the object with the three methods. *)
Definition code_action (command : value) : object :=
  object_literal [("apply", VClosure ApplyCode command);
                  ("getTitle", VClosure GetTitleCode command);
                  ("dispose", VClosure DisposeCode command)].

Definition command_callback (command : value) : M value :=
  alloc (code_action command).

(** Calling a function value, and [obj.name()]. *)
Definition call (f : value) : M value :=
  match f with
  | VClosure ApplyCode command => apply command
  | VClosure GetTitleCode command => getTitle command
  | VClosure DisposeCode _ => dispose
  | _ => throw TypeError
  end.

Definition call_method (obj : value) (name : string) : M value :=
  f ← read_prop obj name; call f.

(** The argument of [connection.codeAction]: the object literal, its
    properties evaluated in the order they are written. *)
Definition codeActionParams (linterAdapter : LinterPushV2Adapter)
    (editor range diagnostics : value) : M value :=
  textDocument ← call_external (editorToTextDocumentIdentifier Convert editor);
  lsRange ← call_external (atomRangeToLSRange Convert range);
  wire ← array_map diagnostics (diagnostic_callback linterAdapter editor);
  context ← alloc (object_literal [("diagnostics", wire)]);
  alloc (object_literal [("textDocument", textDocument);
                         ("range", lsRange);
                         ("context", context)]).

(** [static async getCodeActions(...)]: [Return] is the value the promise
    resolves to, [Throw] the reason it is rejected with. *)
Definition getCodeActions (serverCapabilities : value)
    (linterAdapter : option LinterPushV2Adapter)
    (editor range diagnostics : value) : M value :=
  match linterAdapter with
  | None => alloc (array_literal [])
  | Some linterAdapter =>
      p ← read_prop serverCapabilities "codeActionProvider";
      invariant p "Must have the textDocument/codeAction capability";;
      params ← codeActionParams linterAdapter editor range diagnostics;
      emit (λ s, CodeAction params (store s));;
      commands ← call_external (codeAction connection params);
      array_map commands command_callback
  end.

End CodeActionAdapter.

(** ** What the theorems assume of a collaborator *)

(** The collaborator leaves every object that existed before its call as it
    was: it reads the store and creates objects, nothing else. *)
Definition allocates_only {A} (f : external A) : Prop :=
  ∀ h r h', f h = (r, h') → h ⊆ h'.

(** The collaborator does not hand out an object that existed before its
    call. *)
Definition returns_fresh (f : external value) : Prop :=
  ∀ h l h', f h = (Return (VRef l), h') → h !! l = None.

Definition Convert_allocates_only (Convert : Converter) : Prop :=
  (∀ v, allocates_only (editorToTextDocumentIdentifier Convert v)) ∧
  (∀ v, allocates_only (atomRangeToLSRange Convert v)) ∧
  (∀ v, allocates_only (atomIdeDiagnosticToLSDiagnostic Convert v)).

Definition Linter_allocates_only (linterAdapter : LinterPushV2Adapter) : Prop :=
  ∀ editor range text,
    allocates_only (getDiagnosticCode linterAdapter editor range text).

Definition is_lookup (e : event) : Prop :=
  match e with GetDiagnosticCode _ _ _ => True | _ => False end.

(** ** Relations between a state and a later one *)

(** What was added to the log between [s] and [s']. *)
Definition issued_during (s s' : state) : list event :=
  drop (length (trace s)) (trace s').

(** Every array has the elements it had; the log has grown by cache lookups
    only. *)
Definition keeps_arrays (s s' : state) : Prop :=
  (∀ a xs, elements (store s) a = Some xs → elements (store s') a = Some xs) ∧
  ∃ lookups, trace s' = trace s ++ lookups ∧ Forall is_lookup lookups.

(** Every object is as it was; there may be new ones. *)
Definition keeps_objects (s s' : state) : Prop :=
  store s ⊆ store s'.

(** Every object is as it was, and so is the log. *)
Definition only_allocates (s s' : state) : Prop :=
  store s ⊆ store s' ∧ trace s' = trace s.

(** [action] is the code action made from [command]. *)
Definition is_code_action (command action : value) (s : state) : Prop :=
  ∃ l, action = VRef l ∧ store s !! l = Some (code_action command).

(** ** A small session, used to run the adapter on concrete inputs *)

Module Demo.

Definition place (o : object) (h : heap) : loc * heap :=
  let l := fresh (dom h) in (l, <[l := o]> h).

Definition new (o : object) : external value :=
  λ h, let '(l, h') := place o h in (Return (VRef l), h').

Definition prop (h : heap) (v : value) (k : string) : value :=
  match get_prop h v k with Return x => x | Throw _ => VUndefined end.

(** Conversions that build a new wire structure from the fields they read. *)
Definition convert : Converter := {|
  editorToTextDocumentIdentifier := λ editor h,
    new (object_literal [("uri", prop h editor "path")]) h;
  atomRangeToLSRange := λ range h,
    new (object_literal [("start", prop h range "start");
                         ("end", prop h range "end")]) h;
  atomIdeDiagnosticToLSDiagnostic := λ diagnostic h,
    new (object_literal [("range", prop h diagnostic "range");
                         ("message", prop h diagnostic "text")]) h
|}.

(** A conversion that hands back the diagnostic it was given. *)
Definition aliasing_convert : Converter := {|
  editorToTextDocumentIdentifier := editorToTextDocumentIdentifier convert;
  atomRangeToLSRange := atomRangeToLSRange convert;
  atomIdeDiagnosticToLSDiagnostic := λ diagnostic h, (Return diagnostic, h)
|}.

(** A cache that knows the code of the diagnostics whose text is "T". *)
Definition linter : LinterPushV2Adapter := {|
  getDiagnosticCode := λ editor range text h,
    (Return (if bool_decide (text = VStr "T") then VStr "E042" else VNull), h)
|}.

(** A server that answers every request with the commands
    [{command: "fix.a", arguments: [1], title: "Fix A"}] and
    [{command: "fix.b", arguments: [], title: "Fix B"}]. *)
Definition connection : LanguageClientConnection := {|
  codeAction := λ params h,
    let '(args_a, h) := place (array_literal [VNum 1]) h in
    let '(fix_a, h) := place (object_literal [("command", VStr "fix.a");
                                              ("arguments", VRef args_a);
                                              ("title", VStr "Fix A")]) h in
    let '(args_b, h) := place (array_literal []) h in
    let '(fix_b, h) := place (object_literal [("command", VStr "fix.b");
                                              ("arguments", VRef args_b);
                                              ("title", VStr "Fix B")]) h in
    new (array_literal [VRef fix_a; VRef fix_b]) h;
  executeCommand := λ params h, (Return VNull, h)
|}.

Definition capabilities : loc := 1%positive.
Definition editor : loc := 2%positive.
Definition range : loc := 3%positive.
Definition diagnostics : loc := 7%positive.
Definition capabilities_with_options : loc := 8%positive.
Definition capabilities_without : loc := 10%positive.

Definition objects : heap :=
  list_to_map [
    (capabilities, object_literal [("codeActionProvider", VBool true)]);
    (editor, object_literal [("path", VStr "/project/a.js")]);
    (range, object_literal [("start", VNum 0); ("end", VNum 5)]);
    (4%positive, object_literal [("range", VRef range); ("text", VStr "T")]);
    (5%positive, object_literal [("range", VRef range); ("text", VStr "U")]);
    (6%positive, object_literal [("text", VStr "T")]);
    (diagnostics,
       array_literal [VRef 4%positive; VRef 5%positive; VRef 6%positive]);
    (capabilities_with_options,
       object_literal [("codeActionProvider", VRef 9%positive)]);
    (9%positive, object_literal []);
    (capabilities_without, object_literal [])].

Definition initial : state := State objects [].

(** The session after one successful [getCodeActions], when its request is
    sent, and the store when the server has answered. *)
Definition after_request : state :=
  snd (getCodeActions convert connection (VRef capabilities) (Some linter)
         (VRef editor) (VRef range) (VRef diagnostics) initial).

Definition when_sent : state :=
  snd (codeActionParams convert linter (VRef editor) (VRef range)
         (VRef diagnostics) initial).

Definition request : loc := 18%positive.

Definition answered : heap :=
  snd (codeAction connection (VRef request) (store when_sent)).

(** The first diagnostic converted in the initial store. *)
Definition converted : heap :=
  snd (atomIdeDiagnosticToLSDiagnostic convert (VRef 4%positive) objects).

End Demo.

(** ** What the log is expected to hold *)

(** The log has grown by cache lookups only. *)
Definition only_lookups (s s' : state) : Prop :=
  ∃ lookups, trace s' = trace s ++ lookups ∧ Forall is_lookup lookups.



(** [v] is an object of the store. *)
Definition is_object (h : heap) (v : value) : Prop :=
  ∃ l o, v = VRef l ∧ h !! l = Some o.

(** [v] is not an array of the store: [v.map(...)] throws. *)
Definition not_an_array (h : heap) (v : value) : Prop :=
  ∀ a, v = VRef a → elements h a = None.

(** ** The diagnostics gone through in order *)

(** The callback applied to the members of a list, first to last: what
    [map] does on an array that is left alone meanwhile. *)
Fixpoint in_order (callback : value → M value) (xs : list value)
  : M (list value) :=
  match xs with
  | [] => mret []
  | x :: xs =>
      y ← callback x;
      ys ← in_order callback xs;
      mret (y :: ys)
  end.

(** The state in which [getCodeActions] reaches the diagnostic at index [i]:
    the editor and the range are converted and the [i] diagnostics before it
    are gone through. *)
Definition state_before (Convert : Converter)
    (linterAdapter : LinterPushV2Adapter) (editor range : value)
    (diagnostics : list value) (i : nat) (s : state) : state :=
  snd ((_ ← call_external (editorToTextDocumentIdentifier Convert editor);
        _ ← call_external (atomRangeToLSRange Convert range);
        in_order (diagnostic_callback Convert linterAdapter editor)
          (take i diagnostics)) s).

(** ** Collaborators that fail *)

Module Faults.

(** A connection that has lost its server. *)
Definition offline : LanguageClientConnection := {|
  codeAction := λ params h, (Throw (Failure (VStr "timeout")), h);
  executeCommand := λ params h, (Throw (Failure (VStr "timeout")), h)
|}.

(** A server that offers the code actions of the session and then refuses
    to execute them. *)
Definition refusing : LanguageClientConnection := {|
  codeAction := codeAction Demo.connection;
  executeCommand := λ params h, (Throw (Failure (VStr "refused")), h)
|}.

(** A server that has no code actions and says so with [null]. *)
Definition answers_null : LanguageClientConnection := {|
  codeAction := λ params h, (Return VNull, h);
  executeCommand := λ params h, (Return VNull, h)
|}.

(** Conversions that cannot convert a range. *)
Definition no_range : Converter := {|
  editorToTextDocumentIdentifier :=
    editorToTextDocumentIdentifier Demo.convert;
  atomRangeToLSRange := λ range h, (Throw (Failure (VStr "bad range")), h);
  atomIdeDiagnosticToLSDiagnostic :=
    atomIdeDiagnosticToLSDiagnostic Demo.convert
|}.

(** Conversions that cannot tell the document of an editor. *)
Definition no_document : Converter := {|
  editorToTextDocumentIdentifier :=
    λ editor h, (Throw (Failure (VStr "no path")), h);
  atomRangeToLSRange := atomRangeToLSRange Demo.convert;
  atomIdeDiagnosticToLSDiagnostic :=
    atomIdeDiagnosticToLSDiagnostic Demo.convert
|}.

(** A cache that fails on the diagnostics whose text is "U". *)
Definition broken_cache : LinterPushV2Adapter := {|
  getDiagnosticCode := λ editor range text h,
    (if bool_decide (text = VStr "U")
     then Throw (Failure (VStr "cache")) else Return VNull, h)
|}.

End Faults.

(** ** The monad, step by step *)

Lemma bind_run {A B} (m : M A) (f : A → M B) s :
  (m ≫= f) s = match m s with
               | (Return a, s') => f a s'
               | (Throw e, s') => (Throw e, s')
               end.
Proof. reflexivity. Qed.

Lemma bind_inv {A B} (m : M A) (f : A → M B) s r s' :
  (m ≫= f) s = (r, s') →
  (∃ a s1, m s = (Return a, s1) ∧ f a s1 = (r, s')) ∨
  (∃ e, m s = (Throw e, s') ∧ r = Throw e).
Proof.
  rewrite bind_run. destruct (m s) as [[a|e] s1]; intros H.
  - left. eauto.
  - right. inversion H; subst. eauto.
Qed.

Lemma strict_equal_true (p : value) :
  strict_equal p (VBool true) = bool_decide (p = VBool true).
Proof. by destruct p. Qed.

(** ** The collaborators of the small session *)

Lemma Demo_place_subseteq (o : object) (h : heap) :
  h ⊆ snd (Demo.place o h).
Proof. apply insert_subseteq, not_elem_of_dom, is_fresh. Qed.

Lemma Demo_new_allocates_only (build : heap → object) :
  allocates_only (λ h, Demo.new (build h) h).
Proof. intros h r h' [= _ <-]. apply Demo_place_subseteq. Qed.

Lemma Demo_convert_allocates_only : Convert_allocates_only Demo.convert.
Proof.
  split; [|split]; intros v;
    [ apply (Demo_new_allocates_only
               (λ h, object_literal [("uri", Demo.prop h v "path")]))
    | apply (Demo_new_allocates_only
               (λ h, object_literal [("start", Demo.prop h v "start");
                                     ("end", Demo.prop h v "end")]))
    | apply (Demo_new_allocates_only
               (λ h, object_literal [("range", Demo.prop h v "range");
                                     ("message", Demo.prop h v "text")])) ].
Qed.

Lemma Demo_convert_returns_fresh d :
  returns_fresh (atomIdeDiagnosticToLSDiagnostic Demo.convert d).
Proof. intros h l h' [= <- _]. apply not_elem_of_dom, is_fresh. Qed.

Lemma Demo_linter_allocates_only : Linter_allocates_only Demo.linter.
Proof. by intros editor range text h r h' [= _ <-]. Qed.

Lemma Demo_codeAction_allocates_only params :
  allocates_only (codeAction Demo.connection params).
Proof.
  intros h r h' [= _ <-].
  repeat (etrans; [|apply Demo_place_subseteq]). done.
Qed.

(** ** The capability gate *)

(** C2: on a descriptor whose [codeActionProvider] reads as [p] (undefined
    when absent), [canAdapt] returns [true] exactly when [p] is the boolean
    [true], and leaves the store and the log as they were. *)
Theorem canAdapt_exactly_true (c p : value) (s : state) :
  get_prop (store s) c "codeActionProvider" = Return p →
  canAdapt c s = (Return (bool_decide (p = VBool true)), s).
Proof.
  intros Hp. unfold canAdapt, read_prop. rewrite bind_run, Hp.
  by rewrite strict_equal_true.
Qed.

Lemma canAdapt_exactly_true_witness :
  canAdapt (VRef Demo.capabilities) Demo.initial = (Return true, Demo.initial) ∧
  canAdapt (VRef Demo.capabilities_with_options) Demo.initial
    = (Return false, Demo.initial) ∧
  canAdapt (VRef Demo.capabilities_without) Demo.initial
    = (Return false, Demo.initial).
Proof.
  split; [|split].
  - apply (canAdapt_exactly_true _ (VBool true)). reflexivity.
  - apply (canAdapt_exactly_true _ (VRef 9%positive)). reflexivity.
  - apply (canAdapt_exactly_true _ VUndefined). reflexivity.
Defined.

(** ** The precondition of [getCodeActions] *)

(** C1, as the code has it: with a linter adapter present and a
    [codeActionProvider] that is falsy (absent, [false], [null], [0], [NaN]
    or the empty string), [getCodeActions] is rejected with the assertion
    error, and the store and the log are as before the call: no cache lookup
    and no request was issued. *)
Theorem getCodeActions_requires_capability
    (Convert : Converter) (connection : LanguageClientConnection)
    (serverCapabilities p : value) (linterAdapter : LinterPushV2Adapter)
    (editor range diagnostics : value) (s : state) :
  get_prop (store s) serverCapabilities "codeActionProvider" = Return p →
  to_boolean p = false →
  getCodeActions Convert connection serverCapabilities (Some linterAdapter)
    editor range diagnostics s
  = (Throw (AssertionError "Must have the textDocument/codeAction capability"),
     s).
Proof.
  intros Hp Hfalsy. unfold getCodeActions, read_prop.
  rewrite bind_run, Hp, bind_run. unfold invariant. by rewrite Hfalsy.
Qed.

Lemma getCodeActions_requires_capability_witness :
  getCodeActions Demo.convert Demo.connection (VRef Demo.capabilities_without)
    (Some Demo.linter) (VRef Demo.editor) (VRef Demo.range)
    (VRef Demo.diagnostics) Demo.initial
  = (Throw (AssertionError "Must have the textDocument/codeAction capability"),
     Demo.initial).
Proof.
  apply (getCodeActions_requires_capability _ _ _ VUndefined); reflexivity.
Defined.

(** C1, as the specification words it, fails: a [codeActionProvider] that is
    an options object is not the boolean [true], yet the assertion lets it
    through and the request is sent. *)
Lemma getCodeActions_accepts_truthy_provider :
  let run := getCodeActions Demo.convert Demo.connection
               (VRef Demo.capabilities_with_options) (Some Demo.linter)
               (VRef Demo.editor) (VRef Demo.range) (VRef Demo.diagnostics)
               Demo.initial in
  get_prop (store Demo.initial) (VRef Demo.capabilities_with_options)
    "codeActionProvider" = Return (VRef 9%positive) ∧
  VRef 9%positive ≠ VBool true ∧
  (∀ message, fst run ≠ Throw (AssertionError message)) ∧
  (∃ params sent, last (trace (snd run)) = Some (CodeAction params sent)).
Proof.
  cbv zeta. split; [reflexivity|]. split; [discriminate|]. split.
  - intros message. vm_compute. discriminate.
  - eexists _, _. vm_compute. reflexivity.
Qed.

(** ** Without a linter adapter *)

(** C3: without a linter adapter the promise resolves to a new empty array,
    whatever the other arguments are, and nothing is added to the log: no
    cache lookup, no request. *)
Theorem getCodeActions_without_linter
    (Convert : Converter) (connection : LanguageClientConnection)
    (serverCapabilities editor range diagnostics : value) (s : state) :
  ∃ l s',
    getCodeActions Convert connection serverCapabilities None
      editor range diagnostics s = (Return (VRef l), s') ∧
    store s !! l = None ∧
    store s' = <[l := array_literal []]> (store s) ∧
    elements (store s') l = Some [] ∧
    trace s' = trace s.
Proof.
  eexists _, _. split; [reflexivity|]. simpl. split.
  - apply not_elem_of_dom, is_fresh.
  - split; [reflexivity|]. split; [|reflexivity].
    unfold elements. by rewrite lookup_insert_eq.
Qed.

(** C9: the test for the linter adapter comes first.  Without one the call
    resolves, never rejects, for every value passed as capabilities (also
    one that fails the assertion, also [null], from which the property could
    not even be read), and its whole result is the same for any two such
    values: the capabilities are not looked at. *)
Theorem absent_linter_precedes_capability_check
    (Convert : Converter) (connection : LanguageClientConnection)
    (serverCapabilities editor range diagnostics : value) (s : state) :
  let run caps :=
    getCodeActions Convert connection caps None editor range diagnostics s in
  (∃ l, fst (run serverCapabilities) = Return (VRef l) ∧
        elements (store (snd (run serverCapabilities))) l = Some []) ∧
  (∀ e, fst (run serverCapabilities) ≠ Throw e) ∧
  (∀ other, run other = run serverCapabilities).
Proof.
  cbv zeta. split; [|split].
  - eexists. split; [reflexivity|]. simpl.
    unfold elements. by rewrite lookup_insert_eq.
  - intros e. discriminate.
  - reflexivity.
Qed.

(** ** The code actions *)

Lemma code_action_methods (command action : value) (s : state) :
  is_code_action command action s →
  get_prop (store s) action "apply" = Return (VClosure ApplyCode command) ∧
  get_prop (store s) action "getTitle"
    = Return (VClosure GetTitleCode command) ∧
  get_prop (store s) action "dispose" = Return (VClosure DisposeCode command).
Proof. intros (l & -> & Hl). cbn [get_prop]. by rewrite Hl. Qed.

(** C7: calling [apply] on a code action made from [command], in any state
    the session may be in (so also after any number of earlier calls), makes
    a new object holding the command's [command] and [arguments] as they
    are and hands it to [executeCommand] of the connection exactly once:
    the result and the store are the ones of that one call, and the log has
    grown by exactly that one request, however the request ends. *)
Theorem apply_sends_one_executeCommand
    (connection : LanguageClientConnection)
    (action command name args : value) (s : state) :
  is_code_action command action s →
  get_prop (store s) command "command" = Return name →
  get_prop (store s) command "arguments" = Return args →
  ∃ l sent,
    store s !! l = None ∧
    sent = <[l := object_literal [("command", name); ("arguments", args)]]>
             (store s) ∧
    ∀ r h',
      executeCommand connection (VRef l) sent = (r, h') →
      call_method connection action "apply" s
      = (match r with Return _ => Return VUndefined | Throw e => Throw e end,
         State h' (trace s ++ [ExecuteCommand (VRef l) sent])).
Proof.
  intros Hact Hname Hargs.
  apply code_action_methods in Hact as (Hf & _ & _).
  eexists (fresh (dom (store s))), _.
  split; [apply not_elem_of_dom, is_fresh|]. split; [reflexivity|].
  intros r h' Hexec.
  unfold call_method, read_prop. rewrite bind_run, Hf. cbn [call].
  unfold apply, read_prop. rewrite bind_run, Hname, bind_run, Hargs.
  rewrite bind_run. cbn [alloc]. rewrite bind_run. cbn [emit store trace].
  rewrite bind_run. unfold call_external. cbn [store trace].
  rewrite Hexec. by destruct r.
Qed.

Lemma apply_sends_one_executeCommand_witness :
  ∃ l sent,
    store Demo.after_request !! l = None ∧
    sent = <[l := object_literal [("command", VStr "fix.a");
                                  ("arguments", VRef 19%positive)]]>
             (store Demo.after_request) ∧
    ∀ r h',
      executeCommand Faults.refusing (VRef l) sent = (r, h') →
      call_method Faults.refusing (VRef 24%positive) "apply"
        Demo.after_request
      = (match r with Return _ => Return VUndefined | Throw e => Throw e end,
         State h' (trace Demo.after_request ++ [ExecuteCommand (VRef l) sent])).
Proof.
  apply (apply_sends_one_executeCommand Faults.refusing (VRef 24%positive)
           (VRef 20%positive)).
  - exists 24%positive. split; reflexivity.
  - reflexivity.
  - reflexivity.
Defined.

(** Two calls of [apply] in a row send two requests. *)
Example Demo_apply_twice :
  let invoke := call_method Demo.connection (VRef 24%positive) "apply" in
  length (issued_during Demo.after_request
            (snd ((invoke;; invoke) Demo.after_request))) = 2.
Proof. vm_compute. reflexivity. Qed.

(** C8: [dispose] of a code action returns without raising and leaves the
    store and the log as they were, so that any method of the code action
    called after it does what it would have done without it. *)
Theorem dispose_is_noop
    (connection : LanguageClientConnection)
    (action command : value) (s : state) :
  is_code_action command action s →
  call_method connection action "dispose" s = (Return VUndefined, s) ∧
  ∀ name, (call_method connection action "dispose";;
           call_method connection action name) s
          = call_method connection action name s.
Proof.
  intros Hact. apply code_action_methods in Hact as (_ & _ & Hf).
  assert (call_method connection action "dispose" s = (Return VUndefined, s))
    as H.
  { unfold call_method, read_prop. by rewrite bind_run, Hf. }
  split; [exact H|]. intros name. by rewrite bind_run, H.
Qed.

Lemma dispose_is_noop_witness :
  call_method Demo.connection (VRef 24%positive) "dispose" Demo.after_request
    = (Return VUndefined, Demo.after_request) ∧
  ∀ name, (call_method Demo.connection (VRef 24%positive) "dispose";;
           call_method Demo.connection (VRef 24%positive) name)
            Demo.after_request
          = call_method Demo.connection (VRef 24%positive) name
              Demo.after_request.
Proof.
  apply (dispose_is_noop Demo.connection (VRef 24%positive) (VRef 20%positive)).
  exists 24%positive. split; reflexivity.
Defined.

(** ** Steps of the primitives *)

Lemma read_prop_inv v k s r s' : read_prop v k s = (r, s') → s' = s.
Proof. by intros [= _ <-]. Qed.

Lemma call_external_inv {A} (f : external A) s r s' :
  call_external f s = (r, s') → f (store s) = (r, store s') ∧ trace s' = trace s.
Proof.
  unfold call_external. destruct (f (store s)) as [r1 h1]. by intros [= <- <-].
Qed.

Lemma write_prop_inv v k x s r s' :
  write_prop v k x s = (r, s') →
  s' = s ∨
  ∃ l o, v = VRef l ∧ store s !! l = Some o ∧
         s' = State (<[l := with_prop k x o]> (store s)) (trace s).
Proof.
  unfold write_prop. destruct v; try (intros [= _ <-]; by left).
  destruct (store s !! l) as [o|] eqn:E; intros [= _ <-]; [|by left].
  right. eauto.
Qed.

Lemma get_prop_with_prop (h : heap) (l : loc) (o : object) (k : string)
    (x : value) :
  get_prop (<[l := with_prop k x o]> h) (VRef l) k = Return x.
Proof. simpl. rewrite lookup_insert_eq. simpl. by rewrite lookup_insert_eq. Qed.

(** ** [Array.prototype.map] under an invariant

    [R] relates a state to a later one and is kept by the callback; [Q] is
    what the callback establishes of an element and its image, and survives
    later steps.  As long as [R] keeps the array's elements, the result of
    [map] pairs up with them one for one. *)

Section map_spec.
Context (callback : value → M value) (a : loc) (xs : list value).
Context (R : state → state → Prop) (Q : value → value → state → Prop).
Hypothesis R_refl : ∀ s, R s s.
Hypothesis R_trans : ∀ s1 s2 s3, R s1 s2 → R s2 s3 → R s1 s3.
Hypothesis R_array : ∀ s s',
  R s s' → elements (store s) a = Some xs → elements (store s') a = Some xs.
Hypothesis R_alloc : ∀ o s, R s (snd (alloc o s)).
Hypothesis Q_mono : ∀ x y s s', Q x y s → R s s' → Q x y s'.
Hypothesis callback_spec : ∀ x s r s',
  callback x s = (r, s') → R s s' ∧ ∀ y, r = Return y → Q x y s'.

Lemma map_from_spec n : ∀ k s r s',
  elements (store s) a = Some xs →
  k + n = length xs →
  map_from callback a k n s = (r, s') →
  R s s' ∧
  ∀ ys, r = Return ys → Forall2 (λ x y, Q x y s') (drop k xs) ys.
Proof.
  induction n as [|n IH]; intros k s r s' Ha Hlen Hrun.
  - simpl in Hrun. inversion Hrun; subst. split; [apply R_refl|].
    intros ys [= <-]. rewrite drop_ge by lia. constructor.
  - simpl in Hrun. rewrite Ha in Hrun. simpl in Hrun.
    destruct (lookup_lt_is_Some_2 xs k) as [x Hx]; [lia|].
    rewrite Hx in Hrun.
    apply bind_inv in Hrun as [(y & s1 & Hcb & Hrest)|(e & Hcb & ->)].
    + apply callback_spec in Hcb as [HR1 HQ].
      apply bind_inv in Hrest as [(ys & s2 & Hmap & Hret)|(e & Hmap & ->)].
      * inversion Hret; subst.
        apply IH in Hmap as [HR2 Hys]; [|by eapply R_array|lia].
        split; [by eapply R_trans|].
        intros ? [= <-]. rewrite (drop_S _ _ _ Hx). constructor.
        -- eapply Q_mono; [by apply HQ|done].
        -- by apply Hys.
      * apply IH in Hmap as [HR2 _]; [|by eapply R_array|lia].
        split; [by eapply R_trans|]. intros ? [=].
    + apply callback_spec in Hcb as [HR1 _]. split; [done|]. intros ? [=].
Qed.

Lemma array_map_spec s r s' :
  elements (store s) a = Some xs →
  array_map (VRef a) callback s = (r, s') →
  R s s' ∧
  ∀ v, r = Return v →
    ∃ l ys, v = VRef l ∧ store s' !! l = Some (array_literal ys) ∧
            Forall2 (λ x y, Q x y s') xs ys.
Proof.
  intros Ha Hrun. unfold array_map in Hrun. rewrite Ha in Hrun.
  apply bind_inv in Hrun as [(ys & s1 & Hmap & Halloc)|(e & Hmap & ->)].
  - apply map_from_spec in Hmap as [HR Hys]; [|done|done].
    pose proof (R_alloc (array_literal ys) s1) as HR'.
    rewrite Halloc in HR'. simpl in HR'.
    split; [by eapply R_trans|].
    intros v ->. unfold alloc in Halloc. injection Halloc as <- <-.
    eexists _, ys. split; [done|].
    simpl. split; [by rewrite lookup_insert_eq|].
    eapply Forall2_impl; [by apply Hys|]. intros x y HQ. simpl.
    eapply Q_mono; [exact HQ|exact HR'].
  - apply map_from_spec in Hmap as [HR _]; [|done|done].
    split; [done|]. intros ? [=].
Qed.
End map_spec.

(** ** The diagnostic codes *)

Section reconciliation.
Context (Convert : Converter) (linterAdapter : LinterPushV2Adapter) (editor : value).

(** The callback on one diagnostic that [Convert] turns into [converted] and
    whose [range] and [text] read as [r] and [t]: the cache is asked (once,
    with the editor, [r] and [t]) exactly when neither is null or
    undefined; when it is not asked the converted diagnostic is returned as
    it is; when it is asked and answers with a code that is not null, the
    converted diagnostic gets that code as its [code] property; when it
    answers null or undefined, nothing is written.  *)
Lemma diagnostic_callback_reconciles (diagnostic converted r t : value)
    (h1 : heap) (s : state) :
  atomIdeDiagnosticToLSDiagnostic Convert diagnostic (store s)
    = (Return converted, h1) →
  get_prop h1 diagnostic "range" = Return r →
  get_prop h1 diagnostic "text" = Return t →
  let queried := negb (is_nullish r) && negb (is_nullish t) in
  let run := diagnostic_callback Convert linterAdapter editor diagnostic s in
  trace (snd run)
    = trace s ++ (if queried then [GetDiagnosticCode editor r t] else []) ∧
  (queried = false → run = (Return converted, State h1 (trace s))) ∧
  (queried = true →
   ∀ code h2 l o,
     getDiagnosticCode linterAdapter editor r t h1 = (Return code, h2) →
     converted = VRef l → h2 !! l = Some o →
     fst run = Return converted ∧
     store (snd run)
       = (if is_nullish code then h2 else <[l := with_prop "code" code o]> h2) ∧
     get_prop (store (snd run)) converted "code"
       = Return (if is_nullish code
                 then default VUndefined (props o !! "code") else code)).
Proof.
  intros Hconv Hr Ht queried run.
  assert (run =
    if queried then
      match getDiagnosticCode linterAdapter editor r t h1 with
      | (Return code, h2) =>
          let s2 := State h2 (trace s ++ [GetDiagnosticCode editor r t]) in
          if is_nullish code then (Return converted, s2)
          else match write_prop converted "code" code s2 with
               | (Return _, s3) => (Return converted, s3)
               | (Throw e, s3) => (Throw e, s3)
               end
      | (Throw e, h2) =>
          (Throw e, State h2 (trace s ++ [GetDiagnosticCode editor r t]))
      end
    else (Return converted, State h1 (trace s))) as Hrun.
  { subst run queried. unfold diagnostic_callback.
    rewrite bind_run. unfold call_external at 1. rewrite Hconv.
    rewrite bind_run. unfold read_prop at 1. cbn [store]. rewrite Hr.
    rewrite bind_run.
    destruct (is_nullish r) eqn:Er; [reflexivity|].
    rewrite bind_run. unfold read_prop at 1. cbn [store]. rewrite Ht.
    cbn [mret M_ret].
    destruct (is_nullish t) eqn:Et; [reflexivity|]. cbn [negb andb].
    rewrite bind_run. unfold read_prop at 1. cbn [store]. rewrite Hr.
    rewrite bind_run. unfold read_prop at 1. cbn [store]. rewrite Ht.
    rewrite bind_run. cbn [emit store trace]. rewrite bind_run.
    unfold call_external at 1. cbn [store trace].
    destruct (getDiagnosticCode linterAdapter editor r t h1) as [[code|e] h2];
      [|reflexivity].
    rewrite bind_run. destruct (is_nullish code); [reflexivity|].
    by destruct (write_prop converted "code" code _) as [[[]|?] ?]. }
  rewrite Hrun. clear Hrun run. destruct queried.
  - split; [|split; [discriminate|]].
    + destruct (getDiagnosticCode _ _ _ _ _) as [[code|e] h2]; [|reflexivity].
      destruct (is_nullish code); [reflexivity|].
      unfold write_prop. cbn [store trace].
      destruct converted; try reflexivity.
      by destruct (h2 !! l).
    + intros _ code h2 l o -> -> Hl. cbn zeta.
      destruct (is_nullish code).
      * cbn [fst snd store]. split; [done|]. split; [done|].
        simpl. by rewrite Hl.
      * unfold write_prop. cbn [store trace]. rewrite Hl. cbn [fst snd store].
        split; [done|]. split; [done|]. apply get_prop_with_prop.
  - split; [by rewrite app_nil_r|]. split; [done|discriminate].
Qed.
End reconciliation.

Example Demo_callback_reconciles :
  let run := diagnostic_callback Demo.convert Demo.linter (VRef Demo.editor)
               (VRef 4%positive) Demo.initial in
  trace (snd run)
    = [GetDiagnosticCode (VRef Demo.editor) (VRef Demo.range) (VStr "T")] ∧
  fst run = Return (VRef 11%positive) ∧
  get_prop (store (snd run)) (VRef 11%positive) "code" = Return (VStr "E042").
Proof.
  destruct (diagnostic_callback_reconciles Demo.convert Demo.linter
              (VRef Demo.editor) (VRef 4%positive) (VRef 11%positive)
              (VRef Demo.range) (VStr "T") Demo.converted Demo.initial)
    as (Htrace & _ & Hcode); [reflexivity..|].
  destruct (Hcode eq_refl (VStr "E042") Demo.converted 11%positive
              (object_literal [("range", VRef Demo.range); ("message", VStr "T")]))
    as (Hret & _ & Hread); [reflexivity..|].
  exact (conj Htrace (conj Hret Hread)).
Qed.

Section callback_steps.
Context (Convert : Converter) (linterAdapter : LinterPushV2Adapter) (editor : value).

Lemma diagnostic_callback_inv diagnostic s r s' :
  diagnostic_callback Convert linterAdapter editor diagnostic s = (r, s') →
  ∃ rc h1,
    atomIdeDiagnosticToLSDiagnostic Convert diagnostic (store s) = (rc, h1) ∧
    (∀ y, r = Return y → rc = Return y) ∧
    ((store s' = h1 ∧ trace s' = trace s) ∨
     (∃ rg tx rl h2,
        getDiagnosticCode linterAdapter editor rg tx h1 = (rl, h2) ∧
        trace s' = trace s ++ [GetDiagnosticCode editor rg tx] ∧
        (store s' = h2 ∨
         ∃ l o c, rc = Return (VRef l) ∧ h2 !! l = Some o ∧
                  store s' = <[l := with_prop "code" c o]> h2))).
Proof.
  intros Hrun. unfold diagnostic_callback in Hrun.
  apply bind_inv in Hrun as [(w & s1 & Hconv & Hrun)|(e & Hconv & ->)].
  2:{ apply call_external_inv in Hconv as [Hconv Htr].
      eexists _, _. split; [exact Hconv|]. split; [by intros ? [=]|].
      by left. }
  apply call_external_inv in Hconv as [Hconv Htr1].
  eexists _, _. split; [exact Hconv|].
  apply bind_inv in Hrun as [(rg & s2 & Hr & Hrun)|(e & Hr & ->)].
  2:{ apply read_prop_inv in Hr as ->. split; [by intros ? [=]|]. by left. }
  apply read_prop_inv in Hr as ->.
  apply bind_inv in Hrun as [(both & s2 & Hboth & Hrun)|(e & Hboth & ->)].
  2:{ destruct (is_nullish rg); [discriminate|].
      apply bind_inv in Hboth as [(tx & s3 & Ht & Hb)|(e' & Ht & _)].
      - discriminate.
      - apply read_prop_inv in Ht as ->. split; [by intros ? [=]|]. by left. }
  assert (s2 = s1) as ->.
  { destruct (is_nullish rg); [by injection Hboth as _ <-|].
    apply bind_inv in Hboth as [(tx & s3 & Ht & Hb)|(e' & Ht & _)].
    - apply read_prop_inv in Ht as ->. by injection Hb as _ <-.
    - by apply read_prop_inv in Ht as ->. }
  clear Hboth. destruct both.
  2:{ injection Hrun as <- <-. split; [by intros ? [= <-]|]. by left. }
  apply bind_inv in Hrun as [(rg' & s2 & Hr & Hrun)|(e & Hr & ->)].
  2:{ apply read_prop_inv in Hr as ->. split; [by intros ? [=]|]. by left. }
  apply read_prop_inv in Hr as ->.
  apply bind_inv in Hrun as [(tx & s2 & Ht & Hrun)|(e & Ht & ->)].
  2:{ apply read_prop_inv in Ht as ->. split; [by intros ? [=]|]. by left. }
  apply read_prop_inv in Ht as ->.
  apply bind_inv in Hrun as [([] & s2 & Hemit & Hrun)|(e & Hemit & ->)];
    [|discriminate].
  injection Hemit as <-.
  apply bind_inv in Hrun as [(c & s3 & Hcode & Hrun)|(e & Hcode & ->)].
  2:{ apply call_external_inv in Hcode as [Hcode Htr]. cbn in Hcode, Htr.
      split; [by intros ? [=]|]. right. eexists _, _, _, _.
      split; [exact Hcode|]. split; [by rewrite Htr, Htr1|by left]. }
  apply call_external_inv in Hcode as [Hcode Htr]. cbn in Hcode, Htr.
  assert (trace s3 = trace s ++ [GetDiagnosticCode editor rg' tx]) as Htr3
    by (by rewrite Htr, Htr1).
  apply bind_inv in Hrun as [([] & s4 & Hw & Hrun)|(e & Hw & ->)].
  - injection Hrun as <- <-. split; [by intros ? [= <-]|].
    right. eexists _, _, _, _. split; [exact Hcode|].
    destruct (is_nullish c).
    + injection Hw as <-. split; [done|by left].
    + apply write_prop_inv in Hw as [->|(l & o & -> & Hl & ->)].
      * split; [done|by left].
      * split; [done|]. right. by eexists _, _, _.
  - split; [by intros ? [=]|]. right. eexists _, _, _, _. split; [exact Hcode|].
    destruct (is_nullish c); [discriminate|].
    apply write_prop_inv in Hw as [->|(l & o & -> & Hl & ->)].
    + split; [done|by left].
    + split; [done|]. right. by eexists _, _, _.
Qed.
End callback_steps.

Lemma alloc_inv o s r s' :
  alloc o s = (r, s') →
  ∃ l, r = Return (VRef l) ∧ store s !! l = None ∧
       s' = State (<[l := o]> (store s)) (trace s).
Proof.
  intros [= <- <-]. eexists. split; [done|]. split; [|done].
  apply not_elem_of_dom, is_fresh.
Qed.

Lemma elements_insert_ne (h : heap) (l a : loc) (o : object) :
  l ≠ a → elements (<[l := o]> h) a = elements h a.
Proof. intros Hne. unfold elements. by rewrite lookup_insert_ne. Qed.

Lemma elements_is_Some (h : heap) (a : loc) (xs : list value) :
  elements h a = Some xs → is_Some (h !! a).
Proof. unfold elements. destruct (h !! a); [eauto|discriminate]. Qed.

(** ** Relations kept by the steps of the adapter *)

(** *** Arrays are kept *)

Lemma keeps_arrays_refl s : keeps_arrays s s.
Proof. split; [done|]. exists []. by rewrite app_nil_r. Qed.

Lemma keeps_arrays_trans s1 s2 s3 :
  keeps_arrays s1 s2 → keeps_arrays s2 s3 → keeps_arrays s1 s3.
Proof.
  intros [Ha (e1 & Ht1 & Hl1)] [Hb (e2 & Ht2 & Hl2)]. split; [by eauto|].
  exists (e1 ++ e2). split; [by rewrite Ht2, Ht1, app_assoc|].
  by apply Forall_app.
Qed.

Lemma subseteq_elements (h h' : heap) a xs :
  h ⊆ h' → elements h a = Some xs → elements h' a = Some xs.
Proof.
  intros Hsub. unfold elements. destruct (h !! a) as [o|] eqn:E; [|done].
  by rewrite (lookup_weaken _ _ _ _ E Hsub).
Qed.

Lemma elements_with_prop (h : heap) l o k x a :
  h !! l = Some o →
  elements (<[l := with_prop k x o]> h) a = elements h a.
Proof.
  intros Hl. unfold elements. destruct (decide (l = a)) as [->|Hne].
  - by rewrite lookup_insert_eq, Hl.
  - by rewrite lookup_insert_ne.
Qed.

Lemma keeps_arrays_alloc o s : keeps_arrays s (snd (alloc o s)).
Proof.
  split; [|exists []; by rewrite app_nil_r].
  intros a xs Ha. cbn. rewrite elements_insert_ne; [done|].
  intros Heq. apply elements_is_Some in Ha. rewrite <- Heq in Ha.
  apply elem_of_dom in Ha. by apply is_fresh in Ha.
Qed.

Lemma keeps_arrays_external {A} (f : external A) s r s' :
  allocates_only f → call_external f s = (r, s') → keeps_arrays s s'.
Proof.
  intros Hf Hrun. apply call_external_inv in Hrun as [Hrun Htr].
  apply Hf in Hrun. split; [intros a xs; by apply subseteq_elements|].
  exists []. by rewrite app_nil_r.
Qed.

Lemma keeps_arrays_callback Convert linterAdapter editor x s r s' :
  Convert_allocates_only Convert → Linter_allocates_only linterAdapter →
  diagnostic_callback Convert linterAdapter editor x s = (r, s') →
  keeps_arrays s s' ∧
  ∀ y, r = Return y →
    ∃ h h', atomIdeDiagnosticToLSDiagnostic Convert x h = (Return y, h').
Proof.
  intros (_ & _ & Hconv) Hlint Hrun.
  apply diagnostic_callback_inv in Hrun
    as (rc & h1 & Hc & Hret & [[Hst Htr]|(rg & tx & rl & h2 & Hcode & Htr & Hst)]).
  - split.
    + split; [|exists []; by rewrite app_nil_r].
      intros a xs. rewrite Hst. apply subseteq_elements. by eapply Hconv.
    + intros y ->. rewrite (Hret _ eq_refl) in Hc. eauto.
  - split.
    + split; [|eexists; split; [exact Htr|by repeat constructor]].
      intros a xs Ha.
      apply (subseteq_elements _ h1) in Ha; [|by eapply Hconv].
      apply (subseteq_elements _ h2) in Ha; [|by eapply Hlint].
      destruct Hst as [->|(l & o & c & _ & Hl & ->)]; [done|].
      by rewrite elements_with_prop.
    + intros y ->. rewrite (Hret _ eq_refl) in Hc. eauto.
Qed.

(** *** The commands are mapped by allocation alone *)

Lemma only_allocates_refl s : only_allocates s s.
Proof. by split. Qed.

Lemma only_allocates_trans s1 s2 s3 :
  only_allocates s1 s2 → only_allocates s2 s3 → only_allocates s1 s3.
Proof.
  intros [Ha Ht1] [Hb Ht2]. split; [by etrans|by rewrite Ht2].
Qed.

Lemma only_allocates_alloc o s : only_allocates s (snd (alloc o s)).
Proof.
  split; [|done]. cbn. apply insert_subseteq, not_elem_of_dom, is_fresh.
Qed.

Lemma command_callback_spec x s r s' :
  command_callback x s = (r, s') →
  only_allocates s s' ∧ ∀ y, r = Return y → is_code_action x y s'.
Proof.
  intros Hrun. pose proof (only_allocates_alloc (code_action x) s) as HR.
  unfold command_callback in Hrun. rewrite Hrun in HR. split; [done|].
  apply alloc_inv in Hrun as (l & -> & Hl & ->). intros y [= <-].
  exists l. split; [done|]. cbn. by rewrite lookup_insert_eq.
Qed.

Lemma commands_map_spec (lc : loc) (cs : list value) s r s' :
  elements (store s) lc = Some cs →
  array_map (VRef lc) command_callback s = (r, s') →
  only_allocates s s' ∧
  ∀ v, r = Return v →
    ∃ l acts, v = VRef l ∧ store s' !! l = Some (array_literal acts) ∧
              Forall2 (λ c a, is_code_action c a s') cs acts.
Proof.
  apply (array_map_spec command_callback lc cs only_allocates is_code_action).
  - apply only_allocates_refl.
  - apply only_allocates_trans.
  - intros s1 s2 [Hsub _]. by apply subseteq_elements.
  - apply only_allocates_alloc.
  - intros c y s1 s2 (l & -> & Hl) [Hsub _]. exists l. split; [done|].
    by eapply lookup_weaken.
  - apply command_callback_spec.
Qed.

Lemma commands_map_trace commands s r s' :
  array_map commands command_callback s = (r, s') → only_allocates s s'.
Proof.
  intros Hrun. destruct commands;
    try (injection Hrun as _ <-; apply only_allocates_refl).
  destruct (elements (store s) l) as [cs|] eqn:E.
  - eapply commands_map_spec in Hrun as [HR _]; [exact HR|exact E].
  - unfold array_map in Hrun. rewrite E in Hrun. injection Hrun as _ <-.
    apply only_allocates_refl.
Qed.

(** *** Objects are kept *)

Lemma keeps_objects_refl s : keeps_objects s s.
Proof. by unfold keeps_objects. Qed.

Lemma keeps_objects_trans s1 s2 s3 :
  keeps_objects s1 s2 → keeps_objects s2 s3 → keeps_objects s1 s3.
Proof. unfold keeps_objects. intros. by etrans. Qed.

Lemma keeps_objects_external {A} (f : external A) s r s' :
  allocates_only f → call_external f s = (r, s') → keeps_objects s s'.
Proof.
  intros Hf Hrun. apply call_external_inv in Hrun as [Hrun _]. by eapply Hf.
Qed.

Lemma keeps_objects_alloc o s : keeps_objects s (snd (alloc o s)).
Proof. apply insert_subseteq, not_elem_of_dom, is_fresh. Qed.

Lemma keeps_objects_callback Convert linterAdapter editor x s r s' :
  Convert_allocates_only Convert →
  (∀ d, returns_fresh (atomIdeDiagnosticToLSDiagnostic Convert d)) →
  Linter_allocates_only linterAdapter →
  diagnostic_callback Convert linterAdapter editor x s = (r, s') →
  keeps_objects s s'.
Proof.
  intros (_ & _ & Hconv) Hfresh Hlint Hrun. unfold keeps_objects.
  apply diagnostic_callback_inv in Hrun
    as (rc & h1 & Hc & _ & [[-> _]|(rg & tx & rl & h2 & Hcode & _ & Hst)]).
  - by eapply Hconv.
  - assert (store s ⊆ h2) as Hsub.
    { etrans; [by eapply Hconv|by eapply Hlint]. }
    destruct Hst as [->|(l & o & c & -> & Hl & ->)]; [done|].
    apply insert_subseteq_r; [|done]. by eapply Hfresh.
Qed.

(** ** The request *)

Section request.
Context (Convert : Converter) (linterAdapter : LinterPushV2Adapter).
Context (editor range : value).
Context (R : state → state → Prop) (Q : value → value → state → Prop).
Hypothesis R_refl : ∀ s, R s s.
Hypothesis R_trans : ∀ s1 s2 s3, R s1 s2 → R s2 s3 → R s1 s3.
Hypothesis R_array : ∀ s s' a xs,
  R s s' → elements (store s) a = Some xs → elements (store s') a = Some xs.
Hypothesis R_alloc : ∀ o s, R s (snd (alloc o s)).
Hypothesis Q_mono : ∀ x y s s', Q x y s → R s s' → Q x y s'.
Hypothesis R_textDocument : ∀ s r s',
  call_external (editorToTextDocumentIdentifier Convert editor) s = (r, s') → R s s'.
Hypothesis R_range : ∀ s r s',
  call_external (atomRangeToLSRange Convert range) s = (r, s') → R s s'.
Hypothesis callback_spec : ∀ x s r s',
  diagnostic_callback Convert linterAdapter editor x s = (r, s') →
  R s s' ∧ ∀ y, r = Return y → Q x y s'.

Lemma diagnostics_map_spec diagnostics s r s' :
  array_map diagnostics (diagnostic_callback Convert linterAdapter editor) s
    = (r, s') →
  R s s' ∧
  ∀ a ds v, diagnostics = VRef a → elements (store s) a = Some ds →
    r = Return v →
    ∃ la ws, v = VRef la ∧ store s' !! la = Some (array_literal ws) ∧
             Forall2 (λ d w, Q d w s') ds ws.
Proof.
  intros Hrun.
  destruct diagnostics as [| | | | | |a|];
    try (injection Hrun as <- <-; split; [apply R_refl|by intros ??? [=]]).
  destruct (elements (store s) a) as [xs|] eqn:Ha.
  - eapply array_map_spec in Hrun as [HR Hpost]; eauto.
    split; [done|]. intros ? ds v [= <-] Hds ->.
    rewrite Ha in Hds. injection Hds as <-. by apply Hpost.
  - unfold array_map in Hrun. rewrite Ha in Hrun. injection Hrun as <- <-.
    split; [apply R_refl|]. by intros ??? _ [=].
Qed.

Lemma codeActionParams_spec diagnostics s r s' :
  codeActionParams Convert linterAdapter editor range diagnostics s = (r, s') →
  R s s' ∧
  ∀ a ds params, diagnostics = VRef a → elements (store s) a = Some ds →
    r = Return params →
    ∃ context la ws,
      get_prop (store s') params "context" = Return context ∧
      get_prop (store s') context "diagnostics" = Return (VRef la) ∧
      elements (store s') la = Some ws ∧
      Forall2 (λ d w, Q d w s') ds ws.
Proof.
  intros Hrun. unfold codeActionParams in Hrun.
  apply bind_inv in Hrun as [(td & s1 & Htd & Hrun)|(e & Htd & ->)].
  2:{ split; [by eapply R_textDocument|]. by intros ??? _ _ [=]. }
  apply R_textDocument in Htd.
  apply bind_inv in Hrun as [(rg & s2 & Hrg & Hrun)|(e & Hrg & ->)].
  2:{ split; [|by intros ??? _ _ [=]].
      eapply R_trans; [done|by eapply R_range]. }
  apply R_range in Hrg.
  assert (R s s2) as HR2 by by eapply R_trans.
  apply bind_inv in Hrun as [(wire & s3 & Hmap & Hrun)|(e & Hmap & ->)].
  2:{ apply diagnostics_map_spec in Hmap as [HR3 _].
      split; [by eapply R_trans|]. by intros ??? _ _ [=]. }
  apply diagnostics_map_spec in Hmap as [HR3 Hwire].
  apply bind_inv in Hrun as [(context & s4 & Hctx & Hrun)|(e & Hctx & ->)];
    [|discriminate].
  pose proof (R_alloc (object_literal [("diagnostics", wire)]) s3) as HR4.
  rewrite Hctx in HR4. cbn [snd] in HR4.
  apply alloc_inv in Hctx as (lc & [= ->] & Hlc & ->).
  match type of Hrun with alloc ?o ?st = _ => pose proof (R_alloc o st) as HR5 end.
  rewrite Hrun in HR5. cbn [snd] in HR5.
  apply alloc_inv in Hrun as (lp & -> & Hlp & ->). cbn [store] in *.
  match type of HR5 with R _ ?st => assert (R s3 st) as HR35 by by eapply R_trans end.
  split; [by eapply R_trans; [|eapply R_trans]|].
  intros a ds ? -> Ha [= <-].
  destruct (Hwire a ds wire eq_refl) as (la & ws & -> & Hla & Hws);
    [by eapply R_array|done|].
  exists (VRef lc), la, ws.
  assert (lp ≠ lc) as Hne1.
  { intros ->. by rewrite lookup_insert_eq in Hlp. }
  assert (lc ≠ la) as Hne2 by (intros ->; by rewrite Hla in Hlc).
  assert (lp ≠ la) as Hne3.
  { intros ->. rewrite lookup_insert_ne in Hlp by done. by rewrite Hla in Hlp. }
  split; [|split; [|split]].
  - cbn [get_prop]. by rewrite lookup_insert_eq.
  - cbn [get_prop]. rewrite lookup_insert_ne by done. by rewrite lookup_insert_eq.
  - rewrite !elements_insert_ne by done. unfold elements. by rewrite Hla.
  - eapply Forall2_impl; [exact Hws|]. intros d w HQ. cbn beta in *.
    by eapply Q_mono.
Qed.
End request.

Lemma issued_during_app s s' evs :
  trace s' = trace s ++ evs → issued_during s s' = evs.
Proof. intros Htr. unfold issued_during. by rewrite Htr, drop_app_length. Qed.

Lemma lookups_no_request params sent lookups :
  Forall is_lookup lookups → CodeAction params sent ∉ lookups.
Proof.
  intros Hl Hin. rewrite Forall_forall in Hl. by apply Hl in Hin.
Qed.

(** ** The response *)

Lemma commands_map_returns (a : loc) n : ∀ k s,
  ∃ ys s', map_from command_callback a k n s = (Return ys, s').
Proof.
  induction n as [|n IH]; intros k s; [by eexists _, _|].
  cbn [map_from]. destruct (xs ← elements (store s) a; xs !! k) as [x|].
  - rewrite bind_run. cbn [command_callback alloc].
    edestruct IH as (ys & s' & Hmap). rewrite bind_run, Hmap. by eexists _, _.
  - edestruct IH as (ys & s' & Hmap). rewrite bind_run, Hmap. by eexists _, _.
Qed.

Lemma getTitle_of_code_action connection c a s :
  is_code_action c a s →
  call_method connection a "getTitle" s = (get_prop (store s) c "title", s).
Proof.
  intros Hact. apply code_action_methods in Hact as (_ & Hf & _).
  unfold call_method, read_prop. by rewrite bind_run, Hf.
Qed.

(** C6: when the server answers the request with an array of commands,
    [getCodeActions] resolves to a new array with one code action for each
    command, in the same order; calling [getTitle] on the code action at an
    index gives the [title] of the command at that index and changes
    nothing.  The commands are as the server returned them. *)
Theorem getCodeActions_maps_commands
    (Convert : Converter) (connection : LanguageClientConnection)
    (serverCapabilities p : value) (linterAdapter : LinterPushV2Adapter)
    (editor range diagnostics params : value) (s s1 : state)
    (lc : loc) (cs : list value) (h2 : heap) :
  get_prop (store s) serverCapabilities "codeActionProvider" = Return p →
  to_boolean p = true →
  codeActionParams Convert linterAdapter editor range diagnostics s
    = (Return params, s1) →
  codeAction connection params (store s1) = (Return (VRef lc), h2) →
  elements h2 lc = Some cs →
  ∃ l acts s',
    getCodeActions Convert connection serverCapabilities (Some linterAdapter)
      editor range diagnostics s = (Return (VRef l), s') ∧
    elements (store s') l = Some acts ∧
    length acts = length cs ∧
    h2 ⊆ store s' ∧
    ∀ i c, cs !! i = Some c →
      ∃ a, acts !! i = Some a ∧
           is_code_action c a s' ∧
           call_method connection a "getTitle" s'
           = (get_prop (store s') c "title", s').
Proof.
  intros Hp Htruthy Hparams Hrpc Hcs.
  unfold getCodeActions. rewrite bind_run. unfold read_prop at 1. rewrite Hp.
  rewrite bind_run. unfold invariant. rewrite Htruthy. cbn [mret M_ret].
  rewrite bind_run, Hparams, bind_run. cbn [emit]. rewrite bind_run.
  unfold call_external at 1. cbn [store trace]. rewrite Hrpc.
  match goal with |- context [array_map _ _ ?st] => set (s2 := st) end.
  destruct (array_map (VRef lc) command_callback s2) as [r s'] eqn:Hmap.
  assert (∃ v, r = Return v) as [v ->].
  { unfold array_map in Hmap. subst s2. cbn [store] in Hmap. rewrite Hcs in Hmap.
    rewrite bind_run in Hmap.
    edestruct (commands_map_returns lc (length cs) 0) as (ys & s3 & Hys).
    rewrite Hys in Hmap. injection Hmap as <- _. eauto. }
  apply (commands_map_spec lc cs) in Hmap as [[Hsub _] Hpost]; [|done].
  destruct (Hpost _ eq_refl) as (l & acts & -> & Hl & Hall). clear Hpost.
  exists l, acts, s'. split; [done|]. split; [|split; [|split]].
  - unfold elements. by rewrite Hl.
  - symmetry. by eapply Forall2_length.
  - done.
  - intros i c Hc.
    destruct (Forall2_lookup_l _ _ _ _ _ Hall Hc) as (a & Ha & Hact).
    exists a. split; [done|]. split; [done|].
    by apply getTitle_of_code_action.
Qed.

Lemma getCodeActions_maps_commands_witness :
  ∃ l acts s',
    getCodeActions Demo.convert Demo.connection (VRef Demo.capabilities)
      (Some Demo.linter) (VRef Demo.editor) (VRef Demo.range)
      (VRef Demo.diagnostics) Demo.initial = (Return (VRef l), s') ∧
    elements (store s') l = Some acts ∧
    length acts = 2 ∧
    Demo.answered ⊆ store s' ∧
    ∀ i c, [VRef 20%positive; VRef 22%positive] !! i = Some c →
      ∃ a, acts !! i = Some a ∧
           is_code_action c a s' ∧
           call_method Demo.connection a "getTitle" s'
           = (get_prop (store s') c "title", s').
Proof.
  apply (getCodeActions_maps_commands Demo.convert Demo.connection
           (VRef Demo.capabilities) (VBool true) Demo.linter (VRef Demo.editor)
           (VRef Demo.range) (VRef Demo.diagnostics) (VRef Demo.request)
           Demo.initial Demo.when_sent 23%positive
           [VRef 20%positive; VRef 22%positive] Demo.answered);
    vm_compute; reflexivity.
Defined.

(** The two code actions of the session are titled "Fix A" and "Fix B", in
    that order. *)
Example Demo_titles :
  elements (store Demo.after_request) 26%positive
    = Some [VRef 24%positive; VRef 25%positive] ∧
  fst (call_method Demo.connection (VRef 24%positive) "getTitle"
         Demo.after_request) = Return (VStr "Fix A") ∧
  fst (call_method Demo.connection (VRef 25%positive) "getTitle"
         Demo.after_request) = Return (VStr "Fix B").
Proof. vm_compute. done. Qed.

(** ** The inputs are left alone *)

(** C10: every object that exists when [getCodeActions] is called (the
    array of diagnostics and each diagnostic in it among them) is the same
    after the call, provided the collaborators leave the existing objects as
    they are and [Convert.atomIdeDiagnosticToLSDiagnostic] returns an object
    that did not exist before: the code is written to that object only. *)
Theorem getCodeActions_keeps_its_inputs
    (Convert : Converter) (connection : LanguageClientConnection)
    (serverCapabilities : value) (linterAdapter : option LinterPushV2Adapter)
    (editor range diagnostics : value) (s : state) :
  Convert_allocates_only Convert →
  (∀ d, returns_fresh (atomIdeDiagnosticToLSDiagnostic Convert d)) →
  (∀ linter, linterAdapter = Some linter → Linter_allocates_only linter) →
  (∀ params, allocates_only (codeAction connection params)) →
  ∀ l o,
    store s !! l = Some o →
    store (snd (getCodeActions Convert connection serverCapabilities linterAdapter
                  editor range diagnostics s)) !! l = Some o.
Proof.
  intros HConv Hfresh Hlint Hrpc.
  enough (keeps_objects s (snd (getCodeActions Convert connection
            serverCapabilities linterAdapter editor range diagnostics s))) as H.
  { intros l o Hl. by eapply lookup_weaken. }
  destruct linterAdapter as [linter|]; [|apply keeps_objects_alloc].
  specialize (Hlint linter eq_refl).
  destruct (getCodeActions _ _ _ _ _ _ _ s) as [r s'] eqn:Hrun. cbn [snd].
  unfold getCodeActions in Hrun.
  apply bind_inv in Hrun as [(p & s0 & Hp & Hrun)|(e & Hp & ->)].
  2:{ apply read_prop_inv in Hp as ->. apply keeps_objects_refl. }
  apply read_prop_inv in Hp as ->.
  apply bind_inv in Hrun as [([] & s0 & Hinv & Hrun)|(e & Hinv & ->)].
  2:{ unfold invariant in Hinv. destruct (to_boolean p); [discriminate|].
      injection Hinv as _ <-. apply keeps_objects_refl. }
  assert (s0 = s) as ->.
  { unfold invariant in Hinv. by destruct (to_boolean p); injection Hinv. }
  clear Hinv.
  assert (∀ r1 s1,
    codeActionParams Convert linter editor range diagnostics s = (r1, s1) →
    keeps_objects s s1) as Hparams.
  { intros r1 s1 H1.
    eapply (codeActionParams_spec Convert linter editor range keeps_objects
              (λ _ _ _, True)) in H1 as [H1 _]; [exact H1|..];
      eauto using keeps_objects_refl, keeps_objects_trans, keeps_objects_alloc.
    - intros ????. apply subseteq_elements.
    - intros ???. apply keeps_objects_external, HConv.
    - intros ???. apply keeps_objects_external, HConv.
    - intros ???? Hcb. split; [|done]. by eapply keeps_objects_callback. }
  apply bind_inv in Hrun as [(pr & s1 & Hpr & Hrun)|(e & Hpr & ->)];
    apply Hparams in Hpr; [|done].
  apply bind_inv in Hrun as [([] & s2 & Hemit & Hrun)|(e & Hemit & ->)];
    [|discriminate].
  injection Hemit as <-.
  apply bind_inv in Hrun as [(cmds & s3 & Hcall & Hrun)|(e & Hcall & ->)];
    apply keeps_objects_external in Hcall; try apply Hrpc; cbn in Hcall.
  - apply commands_map_trace in Hrun as [Hsub _].
    eapply keeps_objects_trans; [exact Hpr|].
    eapply keeps_objects_trans; [exact Hcall|exact Hsub].
  - eapply keeps_objects_trans; [exact Hpr|exact Hcall].
Qed.

Lemma getCodeActions_keeps_its_inputs_witness :
  store Demo.after_request !! Demo.diagnostics
    = Some (array_literal [VRef 4%positive; VRef 5%positive; VRef 6%positive]) ∧
  store Demo.after_request !! 4%positive
    = Some (object_literal [("range", VRef Demo.range); ("text", VStr "T")]).
Proof.
  split;
    (apply (getCodeActions_keeps_its_inputs Demo.convert Demo.connection
              (VRef Demo.capabilities) (Some Demo.linter) (VRef Demo.editor)
              (VRef Demo.range) (VRef Demo.diagnostics) Demo.initial);
     [ exact Demo_convert_allocates_only
     | exact Demo_convert_returns_fresh
     | intros linter [= <-]; exact Demo_linter_allocates_only
     | exact Demo_codeAction_allocates_only
     | reflexivity ]).
Defined.

(** Without the assumption on [Convert] the inputs are not safe: when the
    conversion hands back the diagnostic itself, the code is written onto
    it. *)
Example aliasing_convert_writes_back :
  let s' := snd (getCodeActions Demo.aliasing_convert Demo.connection
                   (VRef Demo.capabilities) (Some Demo.linter)
                   (VRef Demo.editor) (VRef Demo.range)
                   (VRef Demo.diagnostics) Demo.initial) in
  get_prop (store Demo.initial) (VRef 4%positive) "code" = Return VUndefined ∧
  get_prop (store s') (VRef 4%positive) "code" = Return (VStr "E042").
Proof. vm_compute. done. Qed.

(** ** Further properties of the adapter *)

(** *** Running [getCodeActions] forward *)

Lemma getCodeActions_past_guard
    (Convert : Converter) (connection : LanguageClientConnection)
    (serverCapabilities p : value) (linterAdapter : LinterPushV2Adapter)
    (editor range diagnostics : value) (s : state) :
  get_prop (store s) serverCapabilities "codeActionProvider" = Return p →
  to_boolean p = true →
  getCodeActions Convert connection serverCapabilities (Some linterAdapter)
    editor range diagnostics s
  = (params ← codeActionParams Convert linterAdapter editor range diagnostics;
     emit (λ s, CodeAction params (store s));;
     commands ← call_external (codeAction connection params);
     array_map commands command_callback) s.
Proof.
  intros Hp Htruthy. unfold getCodeActions.
  rewrite bind_run. unfold read_prop at 1. rewrite Hp.
  rewrite bind_run. unfold invariant. by rewrite Htruthy.
Qed.

Lemma getCodeActions_past_params
    (Convert : Converter) (connection : LanguageClientConnection)
    (serverCapabilities p : value) (linterAdapter : LinterPushV2Adapter)
    (editor range diagnostics params : value) (s s1 : state) :
  get_prop (store s) serverCapabilities "codeActionProvider" = Return p →
  to_boolean p = true →
  codeActionParams Convert linterAdapter editor range diagnostics s
    = (Return params, s1) →
  getCodeActions Convert connection serverCapabilities (Some linterAdapter)
    editor range diagnostics s
  = (commands ← call_external (codeAction connection params);
     array_map commands command_callback)
      (State (store s1) (trace s1 ++ [CodeAction params (store s1)])).
Proof.
  intros Hp Htruthy Hparams.
  rewrite (getCodeActions_past_guard _ _ _ p) by done.
  by rewrite bind_run, Hparams, bind_run.
Qed.


Lemma array_map_not_an_array (v : value) (callback : value → M value) s :
  not_an_array (store s) v → array_map v callback s = (Throw TypeError, s).
Proof.
  intros Hna. destruct v; try reflexivity.
  unfold array_map. by rewrite (Hna l eq_refl).
Qed.

(** *** The gate and the guard *)

(** X1: the gate and the guard agree on a [codeActionProvider] that is a
    boolean or absent: when [canAdapt] says [false], [getCodeActions] with a
    linter adapter is rejected with the assertion error and has done
    nothing. *)
Theorem canAdapt_false_rejects
    (Convert : Converter) (connection : LanguageClientConnection)
    (serverCapabilities p : value) (linterAdapter : LinterPushV2Adapter)
    (editor range diagnostics : value) (s : state) :
  get_prop (store s) serverCapabilities "codeActionProvider" = Return p →
  p = VUndefined ∨ (∃ b, p = VBool b) →
  fst (canAdapt serverCapabilities s) = Return false →
  getCodeActions Convert connection serverCapabilities (Some linterAdapter)
    editor range diagnostics s
  = (Throw (AssertionError "Must have the textDocument/codeAction capability"),
     s).
Proof.
  intros Hp Htyped Hgate.
  assert (to_boolean p = false) as Hfalsy.
  { unfold canAdapt, read_prop in Hgate. rewrite bind_run, Hp in Hgate.
    destruct Htyped as [->|[[] ->]]; [done| |done]. by vm_compute in Hgate. }
  unfold getCodeActions. rewrite bind_run. unfold read_prop at 1. rewrite Hp.
  rewrite bind_run. unfold invariant. by rewrite Hfalsy.
Qed.

Lemma canAdapt_false_rejects_witness :
  getCodeActions Demo.convert Demo.connection (VRef Demo.capabilities_without)
    (Some Demo.linter) (VRef Demo.editor) (VRef Demo.range)
    (VRef Demo.diagnostics) Demo.initial
  = (Throw (AssertionError "Must have the textDocument/codeAction capability"),
     Demo.initial).
Proof.
  apply (canAdapt_false_rejects _ _ _ VUndefined);
    [reflexivity|by left|reflexivity].
Defined.



(** *** When the request fails or is answered with something else *)

(** X4: when the [codeAction] request fails, [getCodeActions] is rejected
    with the same reason; the request is in the log and the store is as the
    connection left it: no code action was made. *)
Theorem codeAction_failure_propagates
    (Convert : Converter) (connection : LanguageClientConnection)
    (serverCapabilities p : value) (linterAdapter : LinterPushV2Adapter)
    (editor range diagnostics params : value) (s s1 : state)
    (e : error) (h2 : heap) :
  get_prop (store s) serverCapabilities "codeActionProvider" = Return p →
  to_boolean p = true →
  codeActionParams Convert linterAdapter editor range diagnostics s
    = (Return params, s1) →
  codeAction connection params (store s1) = (Throw e, h2) →
  getCodeActions Convert connection serverCapabilities (Some linterAdapter)
    editor range diagnostics s
  = (Throw e, State h2 (trace s1 ++ [CodeAction params (store s1)])).
Proof.
  intros Hp Htruthy Hparams Hrpc.
  rewrite (getCodeActions_past_params _ _ _ p _ _ _ _ params s s1) by done.
  rewrite bind_run. unfold call_external. cbn [store trace]. by rewrite Hrpc.
Qed.

Lemma codeAction_failure_propagates_witness :
  getCodeActions Demo.convert Faults.offline (VRef Demo.capabilities)
    (Some Demo.linter) (VRef Demo.editor) (VRef Demo.range)
    (VRef Demo.diagnostics) Demo.initial
  = (Throw (Failure (VStr "timeout")),
     State (store Demo.when_sent)
       (trace Demo.when_sent
          ++ [CodeAction (VRef Demo.request) (store Demo.when_sent)])).
Proof.
  apply (codeAction_failure_propagates Demo.convert Faults.offline
           (VRef Demo.capabilities) (VBool true));
    vm_compute; reflexivity.
Defined.

(** X5: when the server answers the request with something that is not an
    array ([null], as the protocol allows, or any other value),
    [getCodeActions] is rejected with a [TypeError] after the request was
    sent: [commands.map] is called without a test. *)
Theorem response_not_an_array_rejected
    (Convert : Converter) (connection : LanguageClientConnection)
    (serverCapabilities p : value) (linterAdapter : LinterPushV2Adapter)
    (editor range diagnostics params commands : value) (s s1 : state)
    (h2 : heap) :
  get_prop (store s) serverCapabilities "codeActionProvider" = Return p →
  to_boolean p = true →
  codeActionParams Convert linterAdapter editor range diagnostics s
    = (Return params, s1) →
  codeAction connection params (store s1) = (Return commands, h2) →
  not_an_array h2 commands →
  getCodeActions Convert connection serverCapabilities (Some linterAdapter)
    editor range diagnostics s
  = (Throw TypeError, State h2 (trace s1 ++ [CodeAction params (store s1)])).
Proof.
  intros Hp Htruthy Hparams Hrpc Hna.
  rewrite (getCodeActions_past_params _ _ _ p _ _ _ _ params s s1) by done.
  rewrite bind_run. unfold call_external. cbn [store trace]. rewrite Hrpc.
  by apply array_map_not_an_array.
Qed.

Lemma response_not_an_array_rejected_witness :
  getCodeActions Demo.convert Faults.answers_null (VRef Demo.capabilities)
    (Some Demo.linter) (VRef Demo.editor) (VRef Demo.range)
    (VRef Demo.diagnostics) Demo.initial
  = (Throw TypeError,
     State (store Demo.when_sent)
       (trace Demo.when_sent
          ++ [CodeAction (VRef Demo.request) (store Demo.when_sent)])).
Proof.
  apply (response_not_an_array_rejected Demo.convert Faults.answers_null
           (VRef Demo.capabilities) (VBool true) Demo.linter (VRef Demo.editor)
           (VRef Demo.range) (VRef Demo.diagnostics) (VRef Demo.request) VNull);
    try (vm_compute; reflexivity).
  intros a [=].
Defined.

(** *** What a call may add to the log *)

Lemma only_lookups_refl s : only_lookups s s.
Proof. exists []. by rewrite app_nil_r. Qed.

Lemma only_lookups_trans s1 s2 s3 :
  only_lookups s1 s2 → only_lookups s2 s3 → only_lookups s1 s3.
Proof.
  intros (e1 & Ht1 & Hl1) (e2 & Ht2 & Hl2).
  exists (e1 ++ e2). split; [by rewrite Ht2, Ht1, app_assoc|].
  by apply Forall_app.
Qed.

Lemma only_lookups_same_trace s s' : trace s' = trace s → only_lookups s s'.
Proof. intros Htr. exists []. by rewrite app_nil_r. Qed.

Lemma only_lookups_callback Convert linterAdapter editor x s r s' :
  diagnostic_callback Convert linterAdapter editor x s = (r, s') →
  only_lookups s s'.
Proof.
  intros Hrun. apply diagnostic_callback_inv in Hrun
    as (rc & h1 & _ & _ & [[_ Htr]|(rg & tx & rl & h2 & _ & Htr & _)]).
  - by apply only_lookups_same_trace.
  - eexists. split; [exact Htr|]. by repeat constructor.
Qed.

Lemma only_lookups_map_from Convert linterAdapter editor a n : ∀ k s r s',
  map_from (diagnostic_callback Convert linterAdapter editor) a k n s = (r, s') →
  only_lookups s s'.
Proof.
  induction n as [|n IH]; intros k s r s' Hrun.
  - injection Hrun as _ <-. apply only_lookups_refl.
  - cbn [map_from] in Hrun.
    destruct (xs ← elements (store s) a; xs !! k) as [x|].
    + apply bind_inv in Hrun as [(y & s1 & Hcb & Hrun)|(e & Hcb & ->)];
        apply only_lookups_callback in Hcb; [|done].
      apply bind_inv in Hrun as [(ys & s2 & Hmap & Hret)|(e & Hmap & ->)];
        apply IH in Hmap.
      * injection Hret as _ <-. by eapply only_lookups_trans.
      * by eapply only_lookups_trans.
    + apply bind_inv in Hrun as [(ys & s2 & Hmap & Hret)|(e & Hmap & ->)];
        apply IH in Hmap; [|done].
      by injection Hret as _ <-.
Qed.

Lemma only_lookups_codeActionParams
    Convert linterAdapter editor range diagnostics s r s' :
  codeActionParams Convert linterAdapter editor range diagnostics s = (r, s') →
  only_lookups s s'.
Proof.
  intros Hrun. unfold codeActionParams in Hrun.
  apply bind_inv in Hrun as [(td & s1 & Htd & Hrun)|(e & Htd & ->)];
    apply call_external_inv in Htd as [_ Htr1];
    [|by apply only_lookups_same_trace].
  apply bind_inv in Hrun as [(rg & s2 & Hrg & Hrun)|(e & Hrg & ->)];
    apply call_external_inv in Hrg as [_ Htr2];
    [|apply only_lookups_same_trace; by rewrite Htr2].
  assert (only_lookups s s2) as H2
    by (apply only_lookups_same_trace; by rewrite Htr2).
  assert (∀ r3 s3,
    array_map diagnostics (diagnostic_callback Convert linterAdapter editor) s2
      = (r3, s3) → only_lookups s2 s3) as Hmap.
  { intros r3 s3 H3. unfold array_map in H3.
    destruct diagnostics as [| | | | | |a|];
      try (injection H3 as _ <-; apply only_lookups_refl).
    destruct (elements (store s2) a) as [xs|];
      [|injection H3 as _ <-; apply only_lookups_refl].
    apply bind_inv in H3 as [(ys & s4 & H4 & Halloc)|(e & H4 & ->)];
      apply only_lookups_map_from in H4; [|done].
    apply alloc_inv in Halloc as (l & _ & _ & ->).
    eapply only_lookups_trans; [exact H4|]. by apply only_lookups_same_trace. }
  apply bind_inv in Hrun as [(wire & s3 & H3 & Hrun)|(e & H3 & ->)];
    apply Hmap in H3; [|by eapply only_lookups_trans].
  apply bind_inv in Hrun as [(context & s4 & Hctx & Hrun)|(e & Hctx & ->)];
    [|discriminate].
  apply alloc_inv in Hctx as (lc & _ & _ & ->).
  apply alloc_inv in Hrun as (lp & _ & _ & ->).
  eapply only_lookups_trans; [exact H2|].
  eapply only_lookups_trans; [exact H3|]. by apply only_lookups_same_trace.
Qed.

(** X3: whatever the collaborators do, a call of [getCodeActions] with a
    linter adapter adds to the log some cache lookups followed by at most
    one [codeAction] request, and never an [executeCommand]; when the call
    resolves, the request was sent. *)
Theorem getCodeActions_log_shape
    (Convert : Converter) (connection : LanguageClientConnection)
    (serverCapabilities : value) (linterAdapter : LinterPushV2Adapter)
    (editor range diagnostics : value) (s : state) :
  let run := getCodeActions Convert connection serverCapabilities
               (Some linterAdapter) editor range diagnostics s in
  ∃ lookups requests,
    issued_during s (snd run) = lookups ++ requests ∧
    Forall is_lookup lookups ∧
    (requests = [] ∨ ∃ params sent, requests = [CodeAction params sent]) ∧
    (∀ v, fst run = Return v → requests ≠ []).
Proof.
  cbv zeta.
  destruct (getCodeActions _ _ _ _ _ _ _ s) as [r s'] eqn:Hrun.
  cbn [fst snd]. unfold getCodeActions in Hrun.
  assert (∀ lookups,
    trace s' = trace s ++ lookups → Forall is_lookup lookups →
    (∀ v, r ≠ Return v) →
    ∃ lookups requests,
      issued_during s s' = lookups ++ requests ∧ Forall is_lookup lookups ∧
      (requests = [] ∨ ∃ params sent, requests = [CodeAction params sent]) ∧
      (∀ v, r = Return v → requests ≠ [])) as Hearly.
  { intros lookups Htr Hl Hr. exists lookups, [].
    rewrite app_nil_r. split; [by apply issued_during_app|].
    split; [done|]. split; [by left|]. intros v ->. by destruct (Hr v). }
  apply bind_inv in Hrun as [(p & s0 & Hp & Hrun)|(e & Hp & ->)];
    apply read_prop_inv in Hp as ->;
    [|by apply (Hearly []); [rewrite app_nil_r|constructor|]].
  apply bind_inv in Hrun as [([] & s0 & Hinv & Hrun)|(e & Hinv & ->)].
  2:{ unfold invariant in Hinv. destruct (to_boolean p); [discriminate|].
      injection Hinv as _ <-.
      by apply (Hearly []); [rewrite app_nil_r|constructor|]. }
  assert (s0 = s) as ->.
  { unfold invariant in Hinv. by destruct (to_boolean p); injection Hinv. }
  clear Hinv.
  apply bind_inv in Hrun as [(params & s1 & Hparams & Hrun)|(e & Hparams & ->)];
    apply only_lookups_codeActionParams in Hparams as (lookups & Htr & Hl);
    [|by apply (Hearly lookups)].
  apply bind_inv in Hrun as [([] & s2 & Hemit & Hrun)|(e & Hemit & ->)];
    [|discriminate].
  injection Hemit as <-.
  assert (trace s' = trace s ++ lookups ++ [CodeAction params (store s1)])
    as Htr'.
  { apply bind_inv in Hrun as [(cmds & s3 & Hrpc & Hrun)|(e & Hrpc & ->)];
      apply call_external_inv in Hrpc as [_ Htr3].
    - apply commands_map_trace in Hrun as [_ Htr4].
      rewrite Htr4, Htr3. cbn. by rewrite Htr, app_assoc.
    - rewrite Htr3. cbn. by rewrite Htr, app_assoc. }
  exists lookups, [CodeAction params (store s1)].
  split; [by apply issued_during_app|]. split; [done|].
  split; [right; by eexists _, _|done].
Qed.

(** *** When the request cannot be built *)

(** X8: any failure while the parameters of the request are built (a
    conversion, a cache lookup, a malformed list of diagnostics) rejects
    [getCodeActions] with that failure, and what was added to the log are
    cache lookups only: no request is sent. *)
Theorem failure_before_request_sends_nothing
    (Convert : Converter) (connection : LanguageClientConnection)
    (serverCapabilities p : value) (linterAdapter : LinterPushV2Adapter)
    (editor range diagnostics : value) (s s1 : state) (e : error) :
  get_prop (store s) serverCapabilities "codeActionProvider" = Return p →
  to_boolean p = true →
  codeActionParams Convert linterAdapter editor range diagnostics s
    = (Throw e, s1) →
  getCodeActions Convert connection serverCapabilities (Some linterAdapter)
    editor range diagnostics s = (Throw e, s1) ∧
  Forall is_lookup (issued_during s s1).
Proof.
  intros Hp Htruthy Hparams. split.
  - rewrite (getCodeActions_past_guard _ _ _ p) by done.
    by rewrite bind_run, Hparams.
  - apply only_lookups_codeActionParams in Hparams as (lookups & Htr & Hl).
    by rewrite (issued_during_app _ _ _ Htr).
Qed.

Lemma failure_before_request_sends_nothing_witness :
  let s1 := snd (codeActionParams Demo.convert Faults.broken_cache
                   (VRef Demo.editor) (VRef Demo.range)
                   (VRef Demo.diagnostics) Demo.initial) in
  getCodeActions Demo.convert Demo.connection (VRef Demo.capabilities)
    (Some Faults.broken_cache) (VRef Demo.editor) (VRef Demo.range)
    (VRef Demo.diagnostics) Demo.initial
  = (Throw (Failure (VStr "cache")), s1) ∧
  Forall is_lookup (issued_during Demo.initial s1).
Proof.
  apply (failure_before_request_sends_nothing Demo.convert Demo.connection
           (VRef Demo.capabilities) (VBool true));
    vm_compute; reflexivity.
Defined.

(** X7: the editor and the range are converted, in this order, before
    anything else: when either conversion fails, [getCodeActions] is
    rejected with that failure, the log is as before the call (the cache is
    not asked, nothing is sent) and the later conversion is not called. *)
Theorem conversion_failure_asks_nothing
    (Convert : Converter) (connection : LanguageClientConnection)
    (serverCapabilities p : value) (linterAdapter : LinterPushV2Adapter)
    (editor range diagnostics : value) (s : state) :
  get_prop (store s) serverCapabilities "codeActionProvider" = Return p →
  to_boolean p = true →
  let run := getCodeActions Convert connection serverCapabilities
               (Some linterAdapter) editor range diagnostics s in
  (∀ e h1,
     editorToTextDocumentIdentifier Convert editor (store s) = (Throw e, h1) →
     run = (Throw e, State h1 (trace s))) ∧
  (∀ textDocument e h1 h2,
     editorToTextDocumentIdentifier Convert editor (store s)
       = (Return textDocument, h1) →
     atomRangeToLSRange Convert range h1 = (Throw e, h2) →
     run = (Throw e, State h2 (trace s))).
Proof.
  intros Hp Htruthy run. subst run.
  rewrite (getCodeActions_past_guard _ _ _ p) by done.
  split.
  - intros e h1 Htd. rewrite bind_run. unfold codeActionParams.
    rewrite bind_run. unfold call_external at 1. by rewrite Htd.
  - intros td e h1 h2 Htd Hrg. rewrite bind_run. unfold codeActionParams.
    rewrite bind_run. unfold call_external at 1. rewrite Htd.
    rewrite bind_run. unfold call_external at 1. cbn [store trace].
    by rewrite Hrg.
Qed.

Lemma conversion_failure_asks_nothing_witness :
  getCodeActions Faults.no_document Demo.connection (VRef Demo.capabilities)
    (Some Demo.linter) (VRef Demo.editor) (VRef Demo.range)
    (VRef Demo.diagnostics) Demo.initial
  = (Throw (Failure (VStr "no path")), Demo.initial) ∧
  fst (getCodeActions Faults.no_range Demo.connection (VRef Demo.capabilities)
         (Some Demo.linter) (VRef Demo.editor) (VRef Demo.range)
         (VRef Demo.diagnostics) Demo.initial)
  = Throw (Failure (VStr "bad range")).
Proof.
  split.
  - apply (conversion_failure_asks_nothing Faults.no_document Demo.connection
             (VRef Demo.capabilities) (VBool true) Demo.linter
             (VRef Demo.editor) (VRef Demo.range) (VRef Demo.diagnostics)
             Demo.initial eq_refl eq_refl).
    reflexivity.
  - destruct (conversion_failure_asks_nothing Faults.no_range Demo.connection
             (VRef Demo.capabilities) (VBool true) Demo.linter
             (VRef Demo.editor) (VRef Demo.range) (VRef Demo.diagnostics)
             Demo.initial eq_refl eq_refl) as [_ H].
    by rewrite (H _ _ _ _ eq_refl eq_refl).
Defined.

(** X9: when [diagnostics] is not an array ([undefined], say),
    [getCodeActions] is rejected with a [TypeError] once the editor and the
    range are converted; the cache is not asked and nothing is sent. *)
Theorem diagnostics_not_an_array_rejected
    (Convert : Converter) (connection : LanguageClientConnection)
    (serverCapabilities p : value) (linterAdapter : LinterPushV2Adapter)
    (editor range diagnostics textDocument lsRange : value) (s : state)
    (h1 h2 : heap) :
  get_prop (store s) serverCapabilities "codeActionProvider" = Return p →
  to_boolean p = true →
  editorToTextDocumentIdentifier Convert editor (store s)
    = (Return textDocument, h1) →
  atomRangeToLSRange Convert range h1 = (Return lsRange, h2) →
  not_an_array h2 diagnostics →
  getCodeActions Convert connection serverCapabilities (Some linterAdapter)
    editor range diagnostics s
  = (Throw TypeError, State h2 (trace s)).
Proof.
  intros Hp Htruthy Htd Hrg Hna.
  rewrite (getCodeActions_past_guard _ _ _ p) by done.
  rewrite bind_run. unfold codeActionParams. rewrite bind_run.
  unfold call_external at 1. rewrite Htd. rewrite bind_run.
  unfold call_external at 1. cbn [store trace]. rewrite Hrg.
  rewrite bind_run. by rewrite array_map_not_an_array.
Qed.

Lemma diagnostics_not_an_array_rejected_witness :
  ∃ h2,
    getCodeActions Demo.convert Demo.connection (VRef Demo.capabilities)
      (Some Demo.linter) (VRef Demo.editor) (VRef Demo.range) VUndefined
      Demo.initial
    = (Throw TypeError, State h2 (trace Demo.initial)).
Proof.
  eexists.
  eapply (diagnostics_not_an_array_rejected Demo.convert Demo.connection
            (VRef Demo.capabilities) (VBool true));
    try reflexivity.
  intros a [=].
Defined.

(** *** What the request carries besides the diagnostics *)

(** X6: the parameters of the request hold, as [textDocument] and
    [range], what [Convert] returned for the editor and then for the
    range. *)
Theorem request_carries_document_and_range
    (Convert : Converter) (linterAdapter : LinterPushV2Adapter)
    (editor range diagnostics params textDocument lsRange : value)
    (s s1 : state) (h1 h2 : heap) :
  editorToTextDocumentIdentifier Convert editor (store s)
    = (Return textDocument, h1) →
  atomRangeToLSRange Convert range h1 = (Return lsRange, h2) →
  codeActionParams Convert linterAdapter editor range diagnostics s
    = (Return params, s1) →
  get_prop (store s1) params "textDocument" = Return textDocument ∧
  get_prop (store s1) params "range" = Return lsRange.
Proof.
  intros Htd Hrg Hrun. unfold codeActionParams in Hrun.
  rewrite bind_run in Hrun. unfold call_external at 1 in Hrun.
  rewrite Htd in Hrun. rewrite bind_run in Hrun.
  unfold call_external at 1 in Hrun. cbn [store trace] in Hrun.
  rewrite Hrg in Hrun.
  apply bind_inv in Hrun as [(wire & s3 & _ & Hrun)|(e & _ & [=])].
  apply bind_inv in Hrun as [(context & s4 & _ & Hrun)|(e & _ & [=])].
  apply alloc_inv in Hrun as (lp & [= ->] & _ & ->).
  cbn [store get_prop]. by rewrite lookup_insert_eq.
Qed.

Lemma request_carries_document_and_range_witness :
  get_prop (store Demo.when_sent) (VRef Demo.request) "textDocument"
    = Return (VRef 11%positive) ∧
  get_prop (store Demo.when_sent) (VRef Demo.request) "range"
    = Return (VRef 12%positive).
Proof.
  eapply (request_carries_document_and_range Demo.convert Demo.linter
            (VRef Demo.editor) (VRef Demo.range) (VRef Demo.diagnostics)
            (VRef Demo.request) _ _ Demo.initial);
    vm_compute; reflexivity.
Defined.

(** *** How [apply] ends *)

(** X10: [apply] ends as its [executeCommand] request ends: it resolves
    to [undefined] whatever the request returns, is rejected with the
    reason the request fails with, and leaves the store as the connection
    left it. *)
Theorem apply_ends_as_executeCommand
    (connection : LanguageClientConnection)
    (action command name args : value) (s : state) :
  is_code_action command action s →
  get_prop (store s) command "command" = Return name →
  get_prop (store s) command "arguments" = Return args →
  ∃ l sent,
    sent = <[l := object_literal [("command", name); ("arguments", args)]]>
             (store s) ∧
    ∀ r h',
      executeCommand connection (VRef l) sent = (r, h') →
      call_method connection action "apply" s
      = (match r with Return _ => Return VUndefined | Throw e => Throw e end,
         State h' (trace s ++ [ExecuteCommand (VRef l) sent])).
Proof.
  intros Hact Hname Hargs.
  apply code_action_methods in Hact as (Hf & _ & _).
  eexists (fresh (dom (store s))), _. split; [reflexivity|].
  intros r h' Hexec.
  unfold call_method, read_prop. rewrite bind_run, Hf. cbn [call].
  unfold apply, read_prop. rewrite bind_run, Hname, bind_run, Hargs.
  rewrite bind_run. cbn [alloc]. rewrite bind_run. cbn [emit store trace].
  rewrite bind_run. unfold call_external. cbn [store trace].
  rewrite Hexec. by destruct r.
Qed.

Lemma apply_ends_as_executeCommand_witness :
  ∃ l sent,
    sent = <[l := object_literal [("command", VStr "fix.a");
                                  ("arguments", VRef 19%positive)]]>
             (store Demo.after_request) ∧
    ∀ r h',
      executeCommand Faults.offline (VRef l) sent = (r, h') →
      call_method Faults.offline (VRef 24%positive) "apply" Demo.after_request
      = (match r with Return _ => Return VUndefined | Throw e => Throw e end,
         State h' (trace Demo.after_request ++ [ExecuteCommand (VRef l) sent])).
Proof.
  apply (apply_ends_as_executeCommand Faults.offline (VRef 24%positive)
           (VRef 20%positive)).
  - exists 24%positive. split; reflexivity.
  - reflexivity.
  - reflexivity.
Defined.

(** *** The lookups follow the diagnostics *)

Lemma diagnostic_callback_run Convert linterAdapter editor
    (diagnostic converted r t : value) (h1 : heap) (s : state) :
  atomIdeDiagnosticToLSDiagnostic Convert diagnostic (store s)
    = (Return converted, h1) →
  get_prop h1 diagnostic "range" = Return r →
  get_prop h1 diagnostic "text" = Return t →
  diagnostic_callback Convert linterAdapter editor diagnostic s =
    if negb (is_nullish r) && negb (is_nullish t) then
      match getDiagnosticCode linterAdapter editor r t h1 with
      | (Return code, h2) =>
          let s2 := State h2 (trace s ++ [GetDiagnosticCode editor r t]) in
          if is_nullish code then (Return converted, s2)
          else match write_prop converted "code" code s2 with
               | (Return _, s3) => (Return converted, s3)
               | (Throw e, s3) => (Throw e, s3)
               end
      | (Throw e, h2) =>
          (Throw e, State h2 (trace s ++ [GetDiagnosticCode editor r t]))
      end
    else (Return converted, State h1 (trace s)).
Proof.
  intros Hconv Hr Ht. unfold diagnostic_callback.
  rewrite bind_run. unfold call_external at 1. rewrite Hconv.
  rewrite bind_run. unfold read_prop at 1. cbn [store]. rewrite Hr.
  rewrite bind_run.
  destruct (is_nullish r) eqn:Er; [reflexivity|].
  rewrite bind_run. unfold read_prop at 1. cbn [store]. rewrite Ht.
  cbn [mret M_ret].
  destruct (is_nullish t) eqn:Et; [reflexivity|]. cbn [negb andb].
  rewrite bind_run. unfold read_prop at 1. cbn [store]. rewrite Hr.
  rewrite bind_run. unfold read_prop at 1. cbn [store]. rewrite Ht.
  rewrite bind_run. cbn [emit store trace]. rewrite bind_run.
  unfold call_external at 1. cbn [store trace].
  destruct (getDiagnosticCode linterAdapter editor r t h1) as [[code|e] h2];
    [|reflexivity].
  rewrite bind_run. destruct (is_nullish code); [reflexivity|].
  by destruct (write_prop converted "code" code _) as [[[]|?] ?].
Qed.

Lemma get_prop_subseteq (h h' : heap) (v : value) (k : string) :
  h ⊆ h' → is_object h v → get_prop h' v k = get_prop h v k.
Proof.
  intros Hsub (l & o & -> & Hl). cbn [get_prop].
  by rewrite Hl, (lookup_weaken _ _ _ _ Hl Hsub).
Qed.

Section lookups.
Context (Convert : Converter) (linterAdapter : LinterPushV2Adapter).
Context (editor : value) (s0 : state).
Hypothesis Convert_ok : Convert_allocates_only Convert.
Hypothesis Convert_fresh :
  ∀ d, returns_fresh (atomIdeDiagnosticToLSDiagnostic Convert d).
Hypothesis linter_ok : Linter_allocates_only linterAdapter.



End lookups.


(** *** From the response to the command executed *)

Lemma apply_run (connection : LanguageClientConnection)
    (action command name args : value) (s : state) :
  is_code_action command action s →
  get_prop (store s) command "command" = Return name →
  get_prop (store s) command "arguments" = Return args →
  call_method connection action "apply" s
  = (_ ← call_external
           (executeCommand connection (VRef (fresh (dom (store s)))));
     mret VUndefined)
      (State (<[fresh (dom (store s)) :=
                  object_literal [("command", name); ("arguments", args)]]>
                (store s))
         (trace s ++
          [ExecuteCommand (VRef (fresh (dom (store s))))
             (<[fresh (dom (store s)) :=
                  object_literal [("command", name); ("arguments", args)]]>
                (store s))])).
Proof.
  intros Hact Hname Hargs.
  apply code_action_methods in Hact as (Hf & _ & _).
  unfold call_method, read_prop. rewrite bind_run, Hf. cbn [call].
  unfold apply, read_prop. rewrite bind_run, Hname, bind_run, Hargs.
  by rewrite bind_run.
Qed.

Lemma response_becomes_code_actions
    (connection : LanguageClientConnection) (lc : loc) (cs : list value)
    (s : state) :
  elements (store s) lc = Some cs →
  ∃ l acts s',
    array_map (VRef lc) command_callback s = (Return (VRef l), s') ∧
    only_allocates s s' ∧
    elements (store s') l = Some acts ∧
    Forall2 (λ c a, is_code_action c a s') cs acts.
Proof.
  intros Hcs.
  destruct (array_map (VRef lc) command_callback s) as [r s'] eqn:Hmap.
  assert (∃ v, r = Return v) as [v ->].
  { unfold array_map in Hmap. rewrite Hcs in Hmap. rewrite bind_run in Hmap.
    edestruct (commands_map_returns lc (length cs) 0) as (ys & s3 & Hys).
    rewrite Hys in Hmap. injection Hmap as <- _. eauto. }
  apply (commands_map_spec lc cs) in Hmap as [Hal Hpost]; [|done].
  destruct (Hpost _ eq_refl) as (l & acts & -> & Hl & Hall).
  exists l, acts, s'. split; [done|]. split; [done|].
  split; [|done]. unfold elements. by rewrite Hl.
Qed.

(** X12: from the response to the command executed: when the server
    answers with an array whose entry at [i] is a command object,
    [getCodeActions] resolves to an array whose entry at [i], when applied,
    hands to [executeCommand] of the connection, exactly once, a request
    holding that command's [command] and [arguments]: the result, the store
    and the one new entry of the log are those of that call. *)
Theorem returned_action_executes_its_command
    (Convert : Converter) (connection : LanguageClientConnection)
    (serverCapabilities p : value) (linterAdapter : LinterPushV2Adapter)
    (editor range diagnostics params : value) (s s1 : state)
    (lc : loc) (cs : list value) (h2 : heap)
    (i : nat) (c name args : value) :
  get_prop (store s) serverCapabilities "codeActionProvider" = Return p →
  to_boolean p = true →
  codeActionParams Convert linterAdapter editor range diagnostics s
    = (Return params, s1) →
  codeAction connection params (store s1) = (Return (VRef lc), h2) →
  elements h2 lc = Some cs →
  cs !! i = Some c →
  is_object h2 c →
  get_prop h2 c "command" = Return name →
  get_prop h2 c "arguments" = Return args →
  ∃ l acts s' a request sent,
    getCodeActions Convert connection serverCapabilities (Some linterAdapter)
      editor range diagnostics s = (Return (VRef l), s') ∧
    elements (store s') l = Some acts ∧
    acts !! i = Some a ∧
    get_prop sent request "command" = Return name ∧
    get_prop sent request "arguments" = Return args ∧
    ∀ r h',
      executeCommand connection request sent = (r, h') →
      call_method connection a "apply" s'
      = (match r with Return _ => Return VUndefined | Throw e => Throw e end,
         State h' (trace s' ++ [ExecuteCommand request sent])).
Proof.
  intros Hp Htruthy Hparams Hrpc Hcs Hi Hobj Hname Hargs.
  rewrite (getCodeActions_past_params _ _ _ p _ _ _ _ params s s1) by done.
  rewrite bind_run. unfold call_external at 1. cbn [store trace]. rewrite Hrpc.
  match goal with |- context [array_map _ _ ?st] => set (s2 := st) end.
  destruct (response_becomes_code_actions connection lc cs s2 Hcs)
    as (l & acts & s' & Hmap & [Hsub _] & Hacts & Hall).
  destruct (Forall2_lookup_l _ _ _ _ _ Hall Hi) as (a & Ha & Hact).
  exists l, acts, s', a, (VRef (fresh (dom (store s')))),
    (<[fresh (dom (store s')) :=
         object_literal [("command", name); ("arguments", args)]]> (store s')).
  split; [exact Hmap|]. split; [done|]. split; [done|].
  split; [cbn [get_prop]; by rewrite lookup_insert_eq|].
  split; [cbn [get_prop]; by rewrite lookup_insert_eq|].
  intros r h' Hexec.
  rewrite (apply_run connection a c name args s' Hact);
    [|by rewrite (get_prop_subseteq h2)..].
  rewrite bind_run. unfold call_external. cbn [store trace].
  rewrite Hexec. by destruct r.
Qed.

Lemma returned_action_executes_its_command_witness :
  ∃ l acts s' a request sent,
    getCodeActions Demo.convert Faults.refusing (VRef Demo.capabilities)
      (Some Demo.linter) (VRef Demo.editor) (VRef Demo.range)
      (VRef Demo.diagnostics) Demo.initial = (Return (VRef l), s') ∧
    elements (store s') l = Some acts ∧
    acts !! 1 = Some a ∧
    get_prop sent request "command" = Return (VStr "fix.b") ∧
    get_prop sent request "arguments" = Return (VRef 21%positive) ∧
    ∀ r h',
      executeCommand Faults.refusing request sent = (r, h') →
      call_method Faults.refusing a "apply" s'
      = (match r with Return _ => Return VUndefined | Throw e => Throw e end,
         State h' (trace s' ++ [ExecuteCommand request sent])).
Proof.
  apply (returned_action_executes_its_command Demo.convert Faults.refusing
           (VRef Demo.capabilities) (VBool true) Demo.linter (VRef Demo.editor)
           (VRef Demo.range) (VRef Demo.diagnostics) (VRef Demo.request)
           Demo.initial Demo.when_sent 23%positive
           [VRef 20%positive; VRef 22%positive] Demo.answered
           1 (VRef 22%positive));
    try (vm_compute; reflexivity).
  eexists 22%positive, _. split; [reflexivity|vm_compute; reflexivity].
Defined.

(** ** The diagnostics of the request, one by one *)

(** *** [map] goes through the array in order *)

Lemma map_from_in_order (callback : value → M value) (a : loc)
    (xs : list value) :
  (∀ x s r s', callback x s = (r, s') →
     elements (store s) a = Some xs → elements (store s') a = Some xs) →
  ∀ n k s,
    elements (store s) a = Some xs →
    k + n = length xs →
    map_from callback a k n s = in_order callback (drop k xs) s.
Proof.
  intros Hkeep. induction n as [|n IH]; intros k s Ha Hlen.
  - by rewrite drop_ge by lia.
  - cbn [map_from]. rewrite Ha. cbn.
    destruct (lookup_lt_is_Some_2 xs k) as [x Hx]; [lia|].
    rewrite Hx, (drop_S _ _ _ Hx). cbn [in_order]. rewrite !bind_run.
    destruct (callback x s) as [[y|e] s1] eqn:Hcb; [|done].
    rewrite !bind_run, IH; [done|by eapply Hkeep|lia].
Qed.

Lemma in_order_at (callback : value → M value) (xs : list value) :
  ∀ i x s ys s',
    xs !! i = Some x →
    in_order callback xs s = (Return ys, s') →
    ∃ before y after si si',
      in_order callback (take i xs) s = (Return before, si) ∧
      callback x si = (Return y, si') ∧
      in_order callback (take (S i) xs) s = (Return (before ++ [y]), si') ∧
      in_order callback (drop (S i) xs) si' = (Return after, s') ∧
      ys = before ++ y :: after ∧
      length before = i.
Proof.
  induction xs as [|x0 xs IH]; intros i x s ys s' Hi Hrun; [done|].
  cbn [in_order] in Hrun.
  apply bind_inv in Hrun as [(y0 & s1 & Hcb & Hrun)|(e & _ & [=])].
  apply bind_inv in Hrun as [(ys0 & s2 & Hrest & Hret)|(e & _ & [=])].
  injection Hret as <- <-.
  destruct i as [|i].
  - injection Hi as ->. exists [], y0, ys0, s, s1.
    cbn [take drop in_order length app]. rewrite bind_run, Hcb.
    by repeat split.
  - cbn in Hi.
    destruct (IH i x s1 ys0 s2 Hi Hrest)
      as (before & y & after & si & si' & H1 & H2 & H3 & H4 & -> & Hlen).
    exists (y0 :: before), y, after, si, si'.
    cbn [take drop in_order]. rewrite !bind_run, Hcb, !bind_run, H1, H3.
    repeat split; [done..|]. cbn. by rewrite Hlen.
Qed.

Lemma in_order_keeps_objects Convert linterAdapter editor :
  Convert_allocates_only Convert →
  (∀ d, returns_fresh (atomIdeDiagnosticToLSDiagnostic Convert d)) →
  Linter_allocates_only linterAdapter →
  ∀ xs s r s',
    in_order (diagnostic_callback Convert linterAdapter editor) xs s = (r, s') →
    keeps_objects s s'.
Proof.
  intros HC Hf HL. induction xs as [|x xs IH]; intros s r s' Hrun.
  - injection Hrun as _ <-. apply keeps_objects_refl.
  - cbn [in_order] in Hrun.
    apply bind_inv in Hrun as [(y & s1 & Hcb & Hrun)|(e & Hcb & ->)];
      apply keeps_objects_callback in Hcb; [|done..].
    apply bind_inv in Hrun as [(ys & s2 & Hrest & Hret)|(e & Hrest & ->)];
      apply IH in Hrest.
    + injection Hret as _ <-. by eapply keeps_objects_trans.
    + by eapply keeps_objects_trans.
Qed.

(** *** The request, taken apart *)

Lemma request_in_log
    (Convert : Converter) (connection : LanguageClientConnection)
    (serverCapabilities : value) (linterAdapter : LinterPushV2Adapter)
    (editor range diagnostics : value) (s : state)
    (params : value) (sent : heap) :
  CodeAction params sent ∈
    issued_during s
      (snd (getCodeActions Convert connection serverCapabilities
              (Some linterAdapter) editor range diagnostics s)) →
  ∃ s1,
    codeActionParams Convert linterAdapter editor range diagnostics s
      = (Return params, s1) ∧
    sent = store s1.
Proof.
  intros Hin.
  destruct (getCodeActions _ _ _ _ _ _ _ s) as [r s'] eqn:Hrun.
  cbn [snd] in Hin. unfold getCodeActions in Hrun.
  assert (∀ s0, CodeAction params sent ∉ issued_during s0 s0) as Hnone.
  { intros s0. rewrite (issued_during_app s0 s0 []) by by rewrite app_nil_r.
    apply not_elem_of_nil. }
  apply bind_inv in Hrun as [(p & s0 & Hp & Hrun)|(e & Hp & ->)];
    apply read_prop_inv in Hp as ->; [|by apply Hnone in Hin].
  apply bind_inv in Hrun as [([] & s0 & Hinv & Hrun)|(e & Hinv & ->)].
  2:{ unfold invariant in Hinv. destruct (to_boolean p); [discriminate|].
      injection Hinv as _ <-. by apply Hnone in Hin. }
  assert (s0 = s) as ->.
  { unfold invariant in Hinv. by destruct (to_boolean p); injection Hinv. }
  clear Hinv.
  apply bind_inv in Hrun as [(pr & s1 & Hparams & Hrun)|(e & Hparams & ->)];
    pose proof Hparams as Hlk;
    apply only_lookups_codeActionParams in Hlk as (lk & Htr & Hlk).
  2:{ rewrite (issued_during_app _ _ _ Htr) in Hin.
      by apply lookups_no_request in Hin. }
  assert (trace s' = trace s ++ lk ++ [CodeAction pr (store s1)]) as Htr'.
  { apply bind_inv in Hrun as [([] & s2 & Hemit & Hrun)|(e & Hemit & ->)];
      [|discriminate].
    injection Hemit as <-.
    apply bind_inv in Hrun as [(cmds & s3 & Hrpc & Hrun)|(e & Hrpc & ->)];
      apply call_external_inv in Hrpc as [_ Htr3].
    - apply commands_map_trace in Hrun as [_ Htr4].
      rewrite Htr4, Htr3. cbn. by rewrite Htr, app_assoc.
    - rewrite Htr3. cbn. by rewrite Htr, app_assoc. }
  rewrite (issued_during_app _ _ _ Htr') in Hin.
  apply elem_of_app in Hin as [Hin|Hin];
    [by apply lookups_no_request in Hin|].
  apply list_elem_of_singleton in Hin. injection Hin as -> ->. eauto.
Qed.

Lemma codeActionParams_taken_apart
    (Convert : Converter) (linterAdapter : LinterPushV2Adapter)
    (editor range : value) (a : loc) (ds : list value) (params : value)
    (s s1 : state) :
  Convert_allocates_only Convert →
  Linter_allocates_only linterAdapter →
  elements (store s) a = Some ds →
  codeActionParams Convert linterAdapter editor range (VRef a) s
    = (Return params, s1) →
  ∃ textDocument lsRange h1 h2 ws s3 context la,
    editorToTextDocumentIdentifier Convert editor (store s)
      = (Return textDocument, h1) ∧
    atomRangeToLSRange Convert range h1 = (Return lsRange, h2) ∧
    in_order (diagnostic_callback Convert linterAdapter editor) ds
      (State h2 (trace s)) = (Return ws, s3) ∧
    store s3 ⊆ store s1 ∧
    get_prop (store s1) params "context" = Return context ∧
    get_prop (store s1) context "diagnostics" = Return (VRef la) ∧
    elements (store s1) la = Some ws.
Proof.
  intros HC HL Ha Hrun. unfold codeActionParams in Hrun.
  apply bind_inv in Hrun as [(td & s2 & Htd & Hrun)|(e & _ & [=])].
  pose proof Htd as Hk2. apply keeps_arrays_external in Hk2; [|apply HC].
  apply call_external_inv in Htd as [Htd Htr2].
  apply bind_inv in Hrun as [(rg & s3 & Hrg & Hrun)|(e & _ & [=])].
  pose proof Hrg as Hk3. apply keeps_arrays_external in Hk3; [|apply HC].
  apply call_external_inv in Hrg as [Hrg Htr3].
  assert (elements (store s3) a = Some ds) as Ha3.
  { destruct Hk2 as [Hk2 _], Hk3 as [Hk3 _]. eauto. }
  assert (s3 = State (store s3) (trace s)) as Hs3.
  { destruct s3. cbn in *. by rewrite Htr3, Htr2. }
  apply bind_inv in Hrun as [(wire & s4 & Hmap & Hrun)|(e & _ & [=])].
  unfold array_map in Hmap. rewrite Ha3 in Hmap.
  apply bind_inv in Hmap as [(ws & s5 & Hmap & Halloc)|(e & _ & [=])].
  rewrite (map_from_in_order _ a ds), drop_0 in Hmap; [|..|done|done].
  2:{ intros x s0 r s0' Hcb.
      eapply keeps_arrays_callback in Hcb as [[Hk _] _]; [|done..]. apply Hk. }
  apply alloc_inv in Halloc as (la & [= ->] & Hla & ->).
  apply bind_inv in Hrun as [(context & s6 & Hctx & Hrun)|(e & _ & [=])].
  apply alloc_inv in Hctx as (lc & [= ->] & Hlc & ->).
  apply alloc_inv in Hrun as (lp & [= ->] & Hlp & ->). cbn [store] in *.
  assert (lc ≠ la) as Hne1 by (intros ->; by rewrite lookup_insert_eq in Hlc).
  assert (lp ≠ lc) as Hne2 by (intros ->; by rewrite lookup_insert_eq in Hlp).
  assert (lp ≠ la) as Hne3.
  { intros ->. rewrite lookup_insert_ne in Hlp by done.
    by rewrite lookup_insert_eq in Hlp. }
  rewrite lookup_insert_ne in Hlc by done.
  rewrite !lookup_insert_ne in Hlp by done.
  exists td, rg, (store s2), (store s3), ws, s5, (VRef lc), la.
  split; [done|]. split; [done|]. split; [by rewrite <- Hs3|].
  split; [|split; [|split]].
  - etrans; [by apply (insert_subseteq _ la)|].
    etrans; [apply (insert_subseteq _ lc); by rewrite lookup_insert_ne|].
    apply insert_subseteq. by rewrite !lookup_insert_ne.
  - cbn [get_prop]. by rewrite lookup_insert_eq.
  - cbn [get_prop]. rewrite lookup_insert_ne by done.
    by rewrite lookup_insert_eq.
  - rewrite !elements_insert_ne by done. unfold elements.
    by rewrite lookup_insert_eq.
Qed.

Lemma state_before_run
    (Convert : Converter) (linterAdapter : LinterPushV2Adapter)
    (editor range textDocument lsRange : value) (ds before : list value)
    (i : nat) (s si : state) (h1 h2 : heap) :
  editorToTextDocumentIdentifier Convert editor (store s)
    = (Return textDocument, h1) →
  atomRangeToLSRange Convert range h1 = (Return lsRange, h2) →
  in_order (diagnostic_callback Convert linterAdapter editor) (take i ds)
    (State h2 (trace s)) = (Return before, si) →
  state_before Convert linterAdapter editor range ds i s = si.
Proof.
  intros Htd Hrg Hrun. unfold state_before.
  rewrite bind_run. unfold call_external at 1. rewrite Htd.
  rewrite bind_run. unfold call_external at 1. cbn [store trace].
  by rewrite Hrg, Hrun.
Qed.

Lemma in_order_length (callback : value → M value) (xs : list value) :
  ∀ s ys s', in_order callback xs s = (Return ys, s') → length ys = length xs.
Proof.
  induction xs as [|x xs IH]; intros s ys s' Hrun.
  - by injection Hrun as <- _.
  - cbn [in_order] in Hrun.
    apply bind_inv in Hrun as [(y & s1 & _ & Hrun)|(e & _ & [=])].
    apply bind_inv in Hrun as [(ys0 & s2 & Hrest & Hret)|(e & _ & [=])].
    injection Hret as <- _. cbn. f_equal. by eapply IH.
Qed.

Lemma lookup_middle (before after : list value) (y : value) (i : nat) :
  length before = i → (before ++ y :: after) !! i = Some y.
Proof. intros <-. by rewrite list_lookup_middle. Qed.

(** C4: when the [codeAction] request is sent, the [diagnostics] of its
    [context] is an array as long as the array of diagnostics given to
    [getCodeActions], and its member at every index [i] is what
    [Convert.atomIdeDiagnosticToLSDiagnostic] returned for the diagnostic at
    index [i], called in the store reached when the editor, the range and
    the diagnostics before [i] were gone through.  The collaborators called
    on the way are assumed to leave the existing objects as they are. *)
Theorem wire_diagnostics_in_order
    (Convert : Converter) (connection : LanguageClientConnection)
    (serverCapabilities : value) (linterAdapter : LinterPushV2Adapter)
    (editor range : value) (a : loc) (ds : list value) (s : state)
    (params : value) (sent : heap) :
  Convert_allocates_only Convert →
  Linter_allocates_only linterAdapter →
  elements (store s) a = Some ds →
  CodeAction params sent ∈
    issued_during s
      (snd (getCodeActions Convert connection serverCapabilities
              (Some linterAdapter) editor range (VRef a) s)) →
  ∃ context la ws,
    get_prop sent params "context" = Return context ∧
    get_prop sent context "diagnostics" = Return (VRef la) ∧
    elements sent la = Some ws ∧
    length ws = length ds ∧
    ∀ i d, ds !! i = Some d →
      ∃ w h',
        ws !! i = Some w ∧
        atomIdeDiagnosticToLSDiagnostic Convert d
          (store (state_before Convert linterAdapter editor range ds i s))
        = (Return w, h').
Proof.
  intros HC HL Ha Hin.
  apply request_in_log in Hin as (s1 & Hparams & ->).
  apply (codeActionParams_taken_apart _ _ _ _ a ds) in Hparams
    as (td & rg & h1 & h2 & ws & s3 & context & la
        & Htd & Hrg & Hrun & _ & Hctx & Hdiag & Hws); [|done..].
  exists context, la, ws. repeat (split; [done|]).
  split; [by eapply in_order_length|].
  intros i d Hd.
  destruct (in_order_at _ _ _ _ _ _ _ Hd Hrun)
    as (before & w & after & si & si' & Hbefore & Hcb & _ & _ & -> & Hlen).
  rewrite (state_before_run _ _ _ _ td rg ds before i s si h1 h2) by done.
  apply diagnostic_callback_inv in Hcb as (rc & h' & Hconv & Hret & _).
  rewrite (Hret w eq_refl) in Hconv.
  exists w, h'. split; [by apply lookup_middle|done].
Qed.

Lemma Demo_request_in_log :
  CodeAction (VRef Demo.request) (store Demo.when_sent) ∈
    issued_during Demo.initial
      (snd (getCodeActions Demo.convert Demo.connection
              (VRef Demo.capabilities) (Some Demo.linter) (VRef Demo.editor)
              (VRef Demo.range) (VRef Demo.diagnostics) Demo.initial)).
Proof. apply last_Some_elem_of. vm_compute. reflexivity. Qed.

Lemma wire_diagnostics_in_order_witness :
  ∃ context la ws,
    get_prop (store Demo.when_sent) (VRef Demo.request) "context"
      = Return context ∧
    get_prop (store Demo.when_sent) context "diagnostics" = Return (VRef la) ∧
    elements (store Demo.when_sent) la = Some ws ∧
    length ws = length [VRef 4%positive; VRef 5%positive; VRef 6%positive] ∧
    ∀ i d, [VRef 4%positive; VRef 5%positive; VRef 6%positive] !! i = Some d →
      ∃ w h',
        ws !! i = Some w ∧
        atomIdeDiagnosticToLSDiagnostic Demo.convert d
          (store (state_before Demo.convert Demo.linter (VRef Demo.editor)
                    (VRef Demo.range)
                    [VRef 4%positive; VRef 5%positive; VRef 6%positive] i
                    Demo.initial))
        = (Return w, h').
Proof.
  apply (wire_diagnostics_in_order Demo.convert Demo.connection
           (VRef Demo.capabilities) Demo.linter (VRef Demo.editor)
           (VRef Demo.range) Demo.diagnostics
           [VRef 4%positive; VRef 5%positive; VRef 6%positive] Demo.initial
           (VRef Demo.request) (store Demo.when_sent)).
  - exact Demo_convert_allocates_only.
  - exact Demo_linter_allocates_only.
  - reflexivity.
  - exact Demo_request_in_log.
Defined.

(** In the session the request holds the wire diagnostics 13, 14 and 15,
    which are what [Convert] made of the diagnostics 4, 5 and 6 when their
    turn came. *)
Example Demo_wire_diagnostics :
  let before := state_before Demo.convert Demo.linter (VRef Demo.editor)
                  (VRef Demo.range)
                  [VRef 4%positive; VRef 5%positive; VRef 6%positive] in
  elements (store Demo.when_sent) 16%positive
    = Some [VRef 13%positive; VRef 14%positive; VRef 15%positive] ∧
  fst (atomIdeDiagnosticToLSDiagnostic Demo.convert (VRef 4%positive)
         (store (before 0 Demo.initial))) = Return (VRef 13%positive) ∧
  fst (atomIdeDiagnosticToLSDiagnostic Demo.convert (VRef 5%positive)
         (store (before 1 Demo.initial))) = Return (VRef 14%positive) ∧
  fst (atomIdeDiagnosticToLSDiagnostic Demo.convert (VRef 6%positive)
         (store (before 2 Demo.initial))) = Return (VRef 15%positive).
Proof. vm_compute. done. Qed.

Lemma get_prop_text_of_range (h : heap) (v r : value) :
  get_prop h v "range" = Return r → ∃ t, get_prop h v "text" = Return t.
Proof.
  destruct v; cbn; try by eauto.
  destruct (h !! l); [eauto|done].
Qed.

Lemma diagnostic_callback_reads Convert linterAdapter editor
    (diagnostic converted w : value) (h1 : heap) (s s' : state) :
  atomIdeDiagnosticToLSDiagnostic Convert diagnostic (store s)
    = (Return converted, h1) →
  diagnostic_callback Convert linterAdapter editor diagnostic s
    = (Return w, s') →
  ∃ r t, get_prop h1 diagnostic "range" = Return r ∧
         get_prop h1 diagnostic "text" = Return t.
Proof.
  intros Hconv Hrun.
  destruct (get_prop h1 diagnostic "range") as [r|e] eqn:Hr.
  - destruct (get_prop_text_of_range _ _ _ Hr) as [t Ht]. eauto.
  - unfold diagnostic_callback in Hrun. rewrite bind_run in Hrun.
    unfold call_external at 1 in Hrun. rewrite Hconv in Hrun.
    rewrite bind_run in Hrun. unfold read_prop at 1 in Hrun.
    cbn [store] in Hrun. by rewrite Hr in Hrun.
Qed.

(** C5: in the request that is sent, for the diagnostic at every index [i]
    of the list given, whose [range] and [text] read as [r] and [t] once it
    is converted to [w]: the cache is asked, with the editor, [r] and [t],
    exactly when neither is null or undefined (this one lookup is all that
    going through the diagnostic adds to the log); when it is asked and
    answers a code that is not null, the wire diagnostic at index [i] of
    the request is the converted object with that code as its [code]; when
    it answers null or undefined, or is not asked, the wire diagnostic is
    the converted object as it was, nothing written.  The collaborators are
    assumed to leave existing objects as they are and [Convert] to return
    new ones. *)
Theorem request_diagnostics_reconciled
    (Convert : Converter) (connection : LanguageClientConnection)
    (serverCapabilities : value) (linterAdapter : LinterPushV2Adapter)
    (editor range : value) (a : loc) (ds : list value) (s : state)
    (params : value) (sent : heap) :
  Convert_allocates_only Convert →
  (∀ d, returns_fresh (atomIdeDiagnosticToLSDiagnostic Convert d)) →
  Linter_allocates_only linterAdapter →
  elements (store s) a = Some ds →
  CodeAction params sent ∈
    issued_during s
      (snd (getCodeActions Convert connection serverCapabilities
              (Some linterAdapter) editor range (VRef a) s)) →
  ∃ context la ws,
    get_prop sent params "context" = Return context ∧
    get_prop sent context "diagnostics" = Return (VRef la) ∧
    elements sent la = Some ws ∧
    ∀ i d, ds !! i = Some d →
      let si := state_before Convert linterAdapter editor range ds i s in
      let si' := state_before Convert linterAdapter editor range ds (S i) s in
      ∃ w h1 r t,
        ws !! i = Some w ∧
        atomIdeDiagnosticToLSDiagnostic Convert d (store si)
          = (Return w, h1) ∧
        get_prop h1 d "range" = Return r ∧
        get_prop h1 d "text" = Return t ∧
        trace si'
          = trace si ++
            (if negb (is_nullish r) && negb (is_nullish t)
             then [GetDiagnosticCode editor r t] else []) ∧
        if negb (is_nullish r) && negb (is_nullish t) then
          ∃ code h2,
            getDiagnosticCode linterAdapter editor r t h1 = (Return code, h2) ∧
            ∀ l o, w = VRef l → h2 !! l = Some o →
              sent !! l
              = Some (if is_nullish code then o else with_prop "code" code o)
        else
          ∀ l o, w = VRef l → h1 !! l = Some o → sent !! l = Some o.
Proof.
  intros HC Hfresh HL Ha Hin.
  apply request_in_log in Hin as (s1 & Hparams & ->).
  apply (codeActionParams_taken_apart _ _ _ _ a ds) in Hparams
    as (td & rg & h1 & h2 & ws & s3 & context & la
        & Htd & Hrg & Hrun & Hsub & Hctx & Hdiag & Hws); [|done..].
  exists context, la, ws. repeat (split; [done|]).
  intros i d Hd.
  destruct (in_order_at _ _ _ _ _ _ _ Hd Hrun)
    as (before & w & after & si & si' & Hbefore & Hcb & Hnext & Hrest & ->
        & Hlen).
  rewrite (state_before_run _ _ _ _ td rg ds before i s si h1 h2) by done.
  rewrite (state_before_run _ _ _ _ td rg ds (before ++ [w]) (S i) s si' h1 h2)
    by done.
  cbv zeta.
  assert (∀ l o, store si' !! l = Some o → store s1 !! l = Some o) as Hstay.
  { intros l o Hl. eapply lookup_weaken; [|exact Hsub].
    eapply lookup_weaken; [exact Hl|].
    by eapply in_order_keeps_objects. }
  pose proof Hcb as Hinv.
  apply diagnostic_callback_inv in Hinv as (rc & hc & Hconv & Hret & _).
  rewrite (Hret w eq_refl) in Hconv. clear Hret rc.
  destruct (diagnostic_callback_reads _ _ _ _ _ _ _ _ _ Hconv Hcb)
    as (r & t & Hr & Ht).
  exists w, hc, r, t. split; [by apply lookup_middle|].
  repeat (split; [done|]).
  rewrite (diagnostic_callback_run _ _ _ _ w r t hc) in Hcb by done.
  destruct (negb (is_nullish r) && negb (is_nullish t)).
  - destruct (getDiagnosticCode linterAdapter editor r t hc)
      as [[code|e] hl] eqn:Hcode; [|done].
    cbn zeta in Hcb. destruct (is_nullish code) eqn:Hnull.
    + injection Hcb as <-. split; [reflexivity|].
      exists code, hl. split; [done|]. rewrite Hnull.
      intros l o _ Hl. by apply Hstay.
    + destruct (write_prop _ _ _ _) as [[[]|e] sw] eqn:Hw; [|done].
      injection Hcb as <-.
      split.
      { by apply write_prop_inv in Hw as [->|(? & ? & _ & _ & ->)]. }
      exists code, hl. split; [done|]. rewrite Hnull. intros l o -> Hl.
      apply Hstay. unfold write_prop in Hw. cbn [store trace] in Hw.
      rewrite Hl in Hw. injection Hw as <-. cbn [store].
      by rewrite lookup_insert_eq.
  - injection Hcb as <-. split; [by rewrite app_nil_r|].
    intros l o _ Hl. by apply Hstay.
Qed.

Lemma request_diagnostics_reconciled_witness :
  ∃ context la ws,
    get_prop (store Demo.when_sent) (VRef Demo.request) "context"
      = Return context ∧
    get_prop (store Demo.when_sent) context "diagnostics" = Return (VRef la) ∧
    elements (store Demo.when_sent) la = Some ws ∧
    ∀ i d, [VRef 4%positive; VRef 5%positive; VRef 6%positive] !! i = Some d →
      let si := state_before Demo.convert Demo.linter (VRef Demo.editor)
                  (VRef Demo.range)
                  [VRef 4%positive; VRef 5%positive; VRef 6%positive] i
                  Demo.initial in
      let si' := state_before Demo.convert Demo.linter (VRef Demo.editor)
                  (VRef Demo.range)
                  [VRef 4%positive; VRef 5%positive; VRef 6%positive] (S i)
                  Demo.initial in
      ∃ w h1 r t,
        ws !! i = Some w ∧
        atomIdeDiagnosticToLSDiagnostic Demo.convert d (store si)
          = (Return w, h1) ∧
        get_prop h1 d "range" = Return r ∧
        get_prop h1 d "text" = Return t ∧
        trace si'
          = trace si ++
            (if negb (is_nullish r) && negb (is_nullish t)
             then [GetDiagnosticCode (VRef Demo.editor) r t] else []) ∧
        if negb (is_nullish r) && negb (is_nullish t) then
          ∃ code h2,
            getDiagnosticCode Demo.linter (VRef Demo.editor) r t h1
              = (Return code, h2) ∧
            ∀ l o, w = VRef l → h2 !! l = Some o →
              store Demo.when_sent !! l
              = Some (if is_nullish code then o else with_prop "code" code o)
        else
          ∀ l o, w = VRef l → h1 !! l = Some o →
            store Demo.when_sent !! l = Some o.
Proof.
  apply (request_diagnostics_reconciled Demo.convert Demo.connection
           (VRef Demo.capabilities) Demo.linter (VRef Demo.editor)
           (VRef Demo.range) Demo.diagnostics
           [VRef 4%positive; VRef 5%positive; VRef 6%positive] Demo.initial
           (VRef Demo.request) (store Demo.when_sent)).
  - exact Demo_convert_allocates_only.
  - exact Demo_convert_returns_fresh.
  - exact Demo_linter_allocates_only.
  - reflexivity.
  - exact Demo_request_in_log.
Defined.

(** In the request of the session, the first wire diagnostic carries the
    code the cache knows, "E042"; the second, for which the cache answers
    null, and the third, which has no range and for which the cache is not
    asked, carry none. *)
Example Demo_request_codes :
  get_prop (store Demo.when_sent) (VRef 13%positive) "code"
    = Return (VStr "E042") ∧
  get_prop (store Demo.when_sent) (VRef 14%positive) "code"
    = Return VUndefined ∧
  (o ← store Demo.when_sent !! 14%positive; props o !! "code") = None ∧
  get_prop (store Demo.when_sent) (VRef 15%positive) "code"
    = Return VUndefined ∧
  (o ← store Demo.when_sent !! 15%positive; props o !! "code") = None ∧
  issued_during Demo.initial Demo.when_sent
  = [GetDiagnosticCode (VRef Demo.editor) (VRef Demo.range) (VStr "T");
     GetDiagnosticCode (VRef Demo.editor) (VRef Demo.range) (VStr "U")].
Proof. vm_compute. done. Qed.
